(** * gesture-cc: hand pose to MIDI Control Change

    A shallow embedding of [src/handler.py] and the properties its
    specification states about it.

    Numbers.  Python [int] is [Z].  Python [float] is modelled by the real
    numbers [R]: [math.sqrt] is [sqrt], [math.atan2] is the two-argument
    arctangent, [math.degrees] multiplies by [180 / PI], and the arithmetic
    operators are the exact ones.  Rounding, overflow, infinities and NaN of
    IEEE binary64 are therefore outside the model; every theorem about a
    claim is a statement about the program read with exact arithmetic.  The
    module [Binary64] repeats the numeric functions on binary64 floats; the
    last sections evaluate them on the inputs of the scenarios and show
    that, for the range of the source and every squared pixel distance
    below 5000000, binary64 gives the controller value of the exact
    reading.

    Effects.  Drawing on the frame, console output and MIDI messages are
    recorded as a list of events; exceptions are a result type.  What the
    camera, the hand detector, the clock and the keyboard return in one
    iteration of the main loop is an input record. *)

From Stdlib Require Import Reals Lra Lia ZArith.
From Stdlib Require Floats Uint63.
From stdpp Require Import gmap strings list.

Local Open Scope R_scope.

(** ** Python numerics *)

Module Py.

(** Python exceptions the modelled code can raise. *)
Inductive Exn : Type :=
| ZeroDivisionError
| KeyError (key : string)
| IndexError
| ValueError
| OverflowError.

(** The result of an expression that may raise. *)
Definition Res (A : Type) : Type := (Exn + A)%type.

#[global] Instance Rlt_decision (x y : R) : Decision (x < y) := Rlt_dec x y.
#[global] Instance Req_decision : EqDecision R := Req_dec_T.

(** [min(a, b)]: the first argument unless the second is smaller. *)
Definition min (a b : R) : R := if decide (b < a) then b else a.

(** [max(a, b)]: the first argument unless the second is larger. *)
Definition max (a b : R) : R := if decide (a < b) then b else a.

(** [a / b] on floats raises on a zero divisor. *)
Definition truediv (a b : R) : Res R :=
  if decide (b = 0) then inl ZeroDivisionError else inr (a / b).

(** [int(x)] on a float truncates toward zero. *)
Definition int (x : R) : Z :=
  if decide (x < 0) then Zceil x else Zfloor x.

(** [math.atan2(y, x)], the angle of the point [(x, y)] in [(-PI, PI]],
    with [atan2(0, 0) = 0]. *)
Definition atan2 (y x : R) : R :=
  if decide (0 < x) then atan (y / x)
  else if decide (x < 0) then
    if decide (y < 0) then atan (y / x) - PI else atan (y / x) + PI
  else if decide (0 < y) then PI / 2
  else if decide (y < 0) then - (PI / 2)
  else 0.

(** [math.degrees(x)]. *)
Definition degrees (x : R) : R := x * (180 / PI).

End Py.

(** ** Constants of the module *)

Definition MIDI_PORT_NAME_SUBSTRING : string := "IAC".
Definition MIDI_CHANNEL : Z := 0.

Definition CC_LEFT_HAND : Z := 20.
Definition CC_RIGHT_HAND : Z := 21.
Definition CC_THUMB_TO_THUMB : Z := 22.
Definition CC_INDEX_TO_INDEX : Z := 23.

(** The distance range in pixels.  The source marks these two constants as
    the ones to tweak, so the model takes them as a record; [shipped] holds
    the values of the source. *)
Record Range : Type := { MIN_DIST_PX : R; MAX_DIST_PX : R }.

Definition shipped : Range := {| MIN_DIST_PX := 20; MAX_DIST_PX := 400 |}.

(** ** The normalizer *)

(** [normalize_to_cc(dist_px, min_d, max_d)]. *)
Definition normalize_to_cc (dist_px min_d max_d : R) : Py.Res Z :=
  let d := Py.max min_d (Py.min max_d dist_px) in
  match Py.truediv (d - min_d) (max_d - min_d) with
  | inl e => inl e
  | inr norm => inr (Py.int (norm * 127))
  end.

(** The normalizer in the words of the specification: clamp, scale to the
    unit interval, take the floor of 127 times that. *)
Definition clamp (d minPx maxPx : R) : R := Rmax minPx (Rmin maxPx d).

Definition toCC_spec (d minPx maxPx : R) : Z :=
  Zfloor ((clamp d minPx maxPx - minPx) / (maxPx - minPx) * 127).

(** ** Events and the effect monad *)

Definition Point : Type := (Z * Z)%type.
Definition Color : Type := (Z * Z * Z)%type.

(** One landmark of a detected hand, in normalized image coordinates. *)
Record Landmark : Type := { lm_x : R; lm_y : R }.

(** One entry of [handedness.classification]. *)
Record Classification : Type := { label : string }.

(** The opened MIDI output. *)
Inductive MidiOut : Type :=
| Port (i : nat)
| VirtualPort (name : string).

(** The text drawn by [draw_line_info]:
    [label d=<cc value>px a=<angle>], kept as its three parts. *)
Record Caption : Type := { cap_label : string; cap_d : Z; cap_a : R }.

Inductive Event : Type :=
| Stdout (text : string)
| StdoutPorts (ports : list string)
| OpenPort (i : nat)
| OpenVirtualPort (name : string)
| SendMessage (out : MidiOut) (msg : list Z)
| CvLine (p1 p2 : Point) (color : Color) (thickness : Z)
| CvCircle (center : Point) (radius : Z) (color : Color) (thickness : Z)
| CvPutText (text : Caption) (org : Point) (color : Color)
| DrawLandmarks (hand_landmarks : list Landmark)
| VideoCapture (device : Z)
| HandsCreate
| ImShow
| CapRelease
| DestroyAllWindows
| HandsClose.

(** A computation: the events it produced, and its value or the exception
    that stopped it.  Events produced before an exception stay produced. *)
Definition M (A : Type) : Type := (list Event * Py.Res A)%type.

Definition pure {A : Type} (a : A) : M A := ([], inr a).

Definition bind {A B : Type} (m : M A) (k : A -> M B) : M B :=
  match m with
  | (tr, inl e) => (tr, inl e)
  | (tr, inr a) => let '(tr', r) := k a in (tr ++ tr', r)
  end.

Definition emit (e : Event) : M unit := ([e], inr tt).

Definition lift {A : Type} (r : Py.Res A) : M A := ([], r).

(** [try: body finally: cleanup]. *)
Definition finally {A : Type} (body : M A) (cleanup : M unit) : M A :=
  match body, cleanup with
  | (tr, r), (tr', inr _) => (tr ++ tr', r)
  | (tr, _), (tr', inl e) => (tr ++ tr', inl e)
  end.

Notation "x <- m ;; k" := (bind m (fun x => k))
  (at level 100, m at next level, right associativity).
Notation "m ;; k" := (bind m (fun _ => k))
  (at level 100, right associativity).

(** [for x in xs: s = body(s, x)]. *)
Fixpoint for_each {A S : Type} (body : S -> A -> M S) (s : S) (xs : list A)
  : M S :=
  match xs with
  | [] => pure s
  | x :: rest => s' <- body s x ;; for_each body s' rest
  end.

(** [xs[i]] on a sequence, for a non-negative constant index. *)
Definition getitem {A : Type} (xs : list A) (i : nat) : Py.Res A :=
  match xs !! i with
  | Some x => inr x
  | None => inl Py.IndexError
  end.

(** The events of a computation, and the MIDI messages among them. *)
Definition trace {A : Type} (m : M A) : list Event := fst m.
Definition outcome {A : Type} (m : M A) : Py.Res A := snd m.

Definition midi_of (e : Event) : option (list Z) :=
  match e with
  | SendMessage _ msg => Some msg
  | _ => None
  end.

Definition midi_messages (tr : list Event) : list (list Z) :=
  omap midi_of tr.

(** ** MIDI output *)

(** [port_name_substring in name]. *)
Definition contains (sub name : string) : bool :=
  match String.index 0 sub name with
  | Some _ => true
  | None => false
  end.

(** The [for i, name in enumerate(ports)] loop of [find_midi_port], from
    index [i] on: the first port whose name contains the substring. *)
Fixpoint scan_ports (sub : string) (i : nat) (ports : list string)
  : option (nat * string) :=
  match ports with
  | [] => None
  | name :: rest =>
      if contains sub name then Some (i, name)
      else scan_ports sub (S i) rest
  end.

(** [find_midi_port(port_name_substring)], given the ports the system
    lists. *)
Definition find_midi_port (port_name_substring : string)
    (ports : list string) : M MidiOut :=
  emit (StdoutPorts ports) ;;
  match scan_ports port_name_substring 0 ports with
  | Some (i, name) =>
      emit (OpenPort i) ;;
      emit (Stdout ("Opened MIDI port: " ++ name)) ;;
      pure (Port i)
  | None =>
      emit (OpenVirtualPort "PoseHandControl") ;;
      emit (Stdout "Opened virtual MIDI port: PoseHandControl (no IAC found)") ;;
      pure (VirtualPort "PoseHandControl")
  end.

(** [send_cc(midi_out, cc_number, value, channel)]. *)
Definition send_cc (midi_out : MidiOut) (cc_number value channel : Z)
  : M unit :=
  let status := Z.lor 176 (Z.land channel 15) in
  let value := Z.max 0 (Z.min 127 value) in
  let msg := [status; Z.land cc_number 127; value] in
  emit (SendMessage midi_out msg).

(** ** Fingertip coordinates *)

(** [coords[outer][inner] = v]. *)
Definition setitem2 (coords : gmap string (gmap string (option Point)))
    (outer inner : string) (v : option Point)
  : Py.Res (gmap string (gmap string (option Point))) :=
  match coords !! outer with
  | None => inl (Py.KeyError outer)
  | Some d => inr (<[outer := <[inner := v]> d]> coords)
  end.

(** [coords[outer][inner]]. *)
Definition getitem2 (coords : gmap string (gmap string (option Point)))
    (outer inner : string) : Py.Res (option Point) :=
  match coords !! outer with
  | None => inl (Py.KeyError outer)
  | Some d =>
      match d !! inner with
      | None => inl (Py.KeyError inner)
      | Some v => inr v
      end
  end.

(** The dictionary every frame starts from. *)
Definition fresh_coords : gmap string (gmap string (option Point)) :=
  <["Left" := <["thumb" := None]> (<["index" := None]> ∅)]>
    (<["Right" := <["thumb" := None]> (<["index" := None]> ∅)]> ∅).

(** The pixel of a landmark on a frame [w] wide and [h] high. *)
Definition pixel (tip : Landmark) (w h : Z) : Point :=
  (Py.int (lm_x tip * IZR w), Py.int (lm_y tip * IZR h)).

(** The body of the loop over the detected hands. *)
Definition hand_step (w h : Z)
    (coords : gmap string (gmap string (option Point)))
    (hand : list Landmark * list Classification)
  : M (gmap string (gmap string (option Point))) :=
  let '(hand_landmarks, handedness) := hand in
  first <- lift (getitem handedness 0) ;;
  let label := label first in
  thumb_tip <- lift (getitem hand_landmarks 4) ;;
  index_tip <- lift (getitem hand_landmarks 8) ;;
  let t := pixel thumb_tip w h in
  let i := pixel index_tip w h in
  coords <- lift (setitem2 coords label "thumb" (Some t)) ;;
  coords <- lift (setitem2 coords label "index" (Some i)) ;;
  emit (CvCircle t 8 (0, 255, 0)%Z (-1)) ;;
  emit (CvCircle i 8 (0, 0, 255)%Z (-1)) ;;
  emit (CvLine t i (255, 0, 0)%Z 2) ;;
  emit (DrawLandmarks hand_landmarks) ;;
  pure coords.

(** What the detector returns for one frame: each field is [None] or a
    list. *)
Record Results : Type := {
  multi_hand_landmarks : option (list (list Landmark));
  multi_handedness : option (list (list Classification))
}.

(** Truth value of [None] or a list. *)
Definition truthy {A : Type} (o : option (list A)) : bool :=
  match o with
  | Some (_ :: _) => true
  | _ => false
  end.

(** The fingertip coordinates of one frame. *)
Definition extract (w h : Z) (results : Results)
  : M (gmap string (gmap string (option Point))) :=
  if truthy (multi_hand_landmarks results) && truthy (multi_handedness results)
  then for_each (hand_step w h) fresh_coords
         (zip (default [] (multi_hand_landmarks results))
              (default [] (multi_handedness results)))
  else pure fresh_coords.

(** ** Geometry, overlay and emission for one pair *)

Section Program.

Variable cfg : Range.

(** [draw_line_info(frame, p1, p2, label_text, color, midi_out,
    cc_number)]. *)
Definition draw_line_info (p1 p2 : option Point) (label_text : string)
    (color : Color) (midi_out : option MidiOut) (cc_number : option Z)
  : M (option (R * R)) :=
  match p1, p2 with
  | Some (x1, y1), Some (x2, y2) =>
      let dist := sqrt (IZR ((x2 - x1) ^ 2 + (y2 - y1) ^ 2)) in
      let angle := Py.degrees (Py.atan2 (IZR (y2 - y1)) (IZR (x2 - x1))) in
      emit (CvLine (x1, y1) (x2, y2) color 2) ;;
      let mid_x := Py.int (IZR (x1 + x2) / 2) in
      let mid_y := (Py.int (IZR (y1 + y2) / 2) - 10)%Z in
      shown <- lift (normalize_to_cc dist (MIN_DIST_PX cfg) (MAX_DIST_PX cfg)) ;;
      emit (CvPutText {| cap_label := label_text; cap_d := shown; cap_a := angle |}
              (mid_x, mid_y) color) ;;
      match cc_number, midi_out with
      | Some cc, Some out =>
          cc_val <- lift (normalize_to_cc dist (MIN_DIST_PX cfg) (MAX_DIST_PX cfg)) ;;
          send_cc out cc cc_val MIDI_CHANNEL
      | _, _ => pure tt
      end ;;
      pure (Some (dist, angle))
  | _, _ => pure None
  end.

(** ** The main loop *)

(** What one iteration of the loop reads from outside: the camera
    ([ret], and the shape of the frame), the detector, the clock and the
    keyboard. *)
Record Tick : Type := {
  ret : bool;
  frame_h : Z;
  frame_w : Z;
  results : Results;
  now : R;
  key : Z
}.

Inductive Flow : Type := Continue | Break.

Definition send_interval : R := 1 / 30.

(** The rate gate: [(now - last_send) > send_interval]. *)
Definition send_midi_now (now last_send : R) : bool :=
  bool_decide (send_interval < now - last_send).

(** The four calls of [draw_line_info] of one frame, in the order of the
    source, with or without the MIDI output. *)
Definition draw_all (left_thumb left_index right_thumb right_index : option Point)
    (midi_out : option MidiOut) (cc : Z -> option Z)
  : M (list (option (R * R))) :=
  m1 <- draw_line_info left_thumb left_index "L T-I" (255, 0, 0)%Z
          midi_out (cc CC_LEFT_HAND) ;;
  m2 <- draw_line_info right_thumb right_index "R T-I" (255, 0, 0)%Z
          midi_out (cc CC_RIGHT_HAND) ;;
  m3 <- draw_line_info left_thumb right_thumb "T-T" (0, 255, 255)%Z
          midi_out (cc CC_THUMB_TO_THUMB) ;;
  m4 <- draw_line_info left_index right_index "I-I" (255, 255, 0)%Z
          midi_out (cc CC_INDEX_TO_INDEX) ;;
  pure [m1; m2; m3; m4].

(** The part of an iteration after the fingertips are known: the gate,
    the four pairs, the update of [last_send].  Returns the measurements
    and the new [last_send]. *)
Definition measure_and_send (midi_out : MidiOut) (last_send : R)
    (coords : gmap string (gmap string (option Point))) (now : R)
  : M (list (option (R * R)) * R) :=
  let gate := send_midi_now now last_send in
  left_thumb <- lift (getitem2 coords "Left" "thumb") ;;
  left_index <- lift (getitem2 coords "Left" "index") ;;
  right_thumb <- lift (getitem2 coords "Right" "thumb") ;;
  right_index <- lift (getitem2 coords "Right" "index") ;;
  if gate then
    ms <- draw_all left_thumb left_index right_thumb right_index
            (Some midi_out) Some ;;
    pure (ms, now)
  else
    ms <- draw_all left_thumb left_index right_thumb right_index
            None (fun _ => None) ;;
    pure (ms, last_send).

(** One iteration of [while True]. *)
Definition iteration (midi_out : MidiOut) (last_send : R) (t : Tick)
  : M (Flow * R) :=
  if negb (ret t) then pure (Break, last_send)
  else
    coords <- extract (frame_w t) (frame_h t) (results t) ;;
    r <- measure_and_send midi_out last_send coords (now t) ;;
    emit ImShow ;;
    if (Z.land (key t) 255 =? 113)%Z then pure (Break, snd r)
    else pure (Continue, snd r).

(** The loop over the iterations the outside world supplies. *)
Fixpoint loop (midi_out : MidiOut) (last_send : R) (ticks : list Tick)
  : M R :=
  match ticks with
  | [] => pure last_send
  | t :: rest =>
      r <- iteration midi_out last_send t ;;
      match fst r with
      | Break => pure (snd r)
      | Continue => loop midi_out (snd r) rest
      end
  end.

(** [run()] up to the [try]: the MIDI port, the camera, the detector. *)
Definition startup (ports : list string) : M (MidiOut * R) :=
  midi_out <- find_midi_port MIDI_PORT_NAME_SUBSTRING ports ;;
  emit (VideoCapture 0) ;;
  emit HandsCreate ;;
  emit (Stdout "Press 'q' to quit.") ;;
  pure (midi_out, 0).

(** [run()]. *)
Definition run (ports : list string) (ticks : list Tick) : M unit :=
  s <- startup ports ;;
  finally (_ <- loop (fst s) (snd s) ticks ;; pure tt)
    (emit CapRelease ;; emit DestroyAllWindows ;; emit HandsClose).

End Program.

(** ** The geometry and the channel table in the words of the specification *)

(** [measure(p1, p2)]: Euclidean distance and the angle of the segment in
    degrees, absent when a point is absent. *)
Definition distance (p1 p2 : Point) : R :=
  sqrt ((IZR (fst p2) - IZR (fst p1)) ^ 2 + (IZR (snd p2) - IZR (snd p1)) ^ 2).

Definition angle_degrees (p1 p2 : Point) : R :=
  Py.atan2 (IZR (snd p2) - IZR (snd p1)) (IZR (fst p2) - IZR (fst p1))
  * 180 / PI.

Definition measure (p1 p2 : option Point) : option (R * R) :=
  match p1, p2 with
  | Some a, Some b => Some (distance a b, angle_degrees a b)
  | _, _ => None
  end.

(** The dictionary that holds the four fingertips. *)
Definition coords_of (left_thumb left_index right_thumb right_index : option Point)
  : gmap string (gmap string (option Point)) :=
  <["Left" := <["thumb" := left_thumb]> (<["index" := left_index]> ∅)]>
    (<["Right" := <["thumb" := right_thumb]> (<["index" := right_index]> ∅)]> ∅).

(** The four pairs of a frame, each with its controller number, its label
    and its colour, in the order the loop handles them. *)
Record Channel : Type := {
  ch_cc : Z;
  ch_label : string;
  ch_color : Color;
  ch_p1 : option Point;
  ch_p2 : option Point
}.

Definition channels (left_thumb left_index right_thumb right_index : option Point)
  : list Channel :=
  [ {| ch_cc := CC_LEFT_HAND; ch_label := "L T-I"; ch_color := (255, 0, 0)%Z;
       ch_p1 := left_thumb; ch_p2 := left_index |};
    {| ch_cc := CC_RIGHT_HAND; ch_label := "R T-I"; ch_color := (255, 0, 0)%Z;
       ch_p1 := right_thumb; ch_p2 := right_index |};
    {| ch_cc := CC_THUMB_TO_THUMB; ch_label := "T-T"; ch_color := (0, 255, 255)%Z;
       ch_p1 := left_thumb; ch_p2 := right_thumb |};
    {| ch_cc := CC_INDEX_TO_INDEX; ch_label := "I-I"; ch_color := (255, 255, 0)%Z;
       ch_p1 := left_index; ch_p2 := right_index |} ].

(** The controller value of a pair of points under a range. *)
Definition cc_value (cfg : Range) (a b : Point) : Z :=
  toCC_spec (distance a b) (MIN_DIST_PX cfg) (MAX_DIST_PX cfg).

(** Where the caption of a pair is drawn. *)
Definition caption_origin (a b : Point) : Point :=
  (Py.int (IZR (fst a + fst b) / 2), (Py.int (IZR (snd a + snd b) / 2) - 10)%Z).

(** What the overlay receives for a pair: its line and its caption. *)
Definition overlay_events (cfg : Range) (ch : Channel) : list Event :=
  match ch_p1 ch, ch_p2 ch with
  | Some a, Some b =>
      [ CvLine a b (ch_color ch) 2;
        CvPutText {| cap_label := ch_label ch; cap_d := cc_value cfg a b;
                     cap_a := angle_degrees a b |}
          (caption_origin a b) (ch_color ch) ]
  | _, _ => []
  end.

(** The Control Change message of a pair. *)
Definition cc_message (cfg : Range) (ch : Channel) : list (list Z) :=
  match ch_p1 ch, ch_p2 ch with
  | Some a, Some b => [[176; ch_cc ch; cc_value cfg a b]%Z]
  | _, _ => []
  end.

(** The events of one pair in a frame whose emit decision is [gate]. *)
Definition channel_events (cfg : Range) (out : MidiOut) (gate : bool)
    (ch : Channel) : list Event :=
  overlay_events cfg ch
  ++ (if gate then SendMessage out <$> cc_message cfg ch else []).

(** Both endpoints of a pair were detected. *)
Definition present (ch : Channel) : bool :=
  match ch_p1 ch, ch_p2 ch with
  | Some _, Some _ => true
  | _, _ => false
  end.

(** ** Observations used in the statements *)

(** The two ways the loop calls [draw_line_info]: with the MIDI output and
    the controller number when the gate is open, without them otherwise. *)
Definition gated_out (gate : bool) (out : MidiOut) : option MidiOut :=
  if gate then Some out else None.

Definition gated_cc (gate : bool) (c : Z) : option Z :=
  if gate then Some c else None.

(** What the loop reads of one detected hand: the label of its first
    classification and the pixels of landmarks 4 and 8. *)
Definition hand_view (w h : Z) (hand : list Landmark * list Classification)
  : option (string * (Point * Point)) :=
  match snd hand !! 0%nat, fst hand !! 4%nat, fst hand !! 8%nat with
  | Some c, Some t, Some i => Some (label c, (pixel t w h, pixel i w h))
  | _, _, _ => None
  end.

(** The markers drawn for one hand. *)
Definition hand_events (hand : list Landmark * list Classification)
    (px : Point * Point) : list Event :=
  [ CvCircle (fst px) 8 (0, 255, 0)%Z (-1);
    CvCircle (snd px) 8 (0, 0, 255)%Z (-1);
    CvLine (fst px) (snd px) (255, 0, 0)%Z 2;
    DrawLandmarks (fst hand) ].

(** The fingertips of the last hand labelled [side], if there is one. *)
Fixpoint last_labelled (side : string)
    (views : list (string * (Point * Point))) : option (Point * Point) :=
  match views with
  | [] => None
  | (s, px) :: rest =>
      match last_labelled side rest with
      | Some later => Some later
      | None => if decide (s = side) then Some px else None
      end
  end.

(** Thumb and index of a side: both present or both absent. *)
Definition paired (thumb index : option Point) : Prop :=
  (thumb = None /\ index = None)
  \/ (exists t i : Point, thumb = Some t /\ index = Some i).

(** A hand as the detector is specified to return it: a label [Left] or
    [Right] and landmarks up to index 8 at least. *)
Definition detected (w h : Z) (hand : list Landmark * list Classification)
  : Prop :=
  exists (s : string) (px : Point * Point),
    hand_view w h hand = Some (s, px) /\ (s = "Left" \/ s = "Right").

(** The hands of a frame, as the loop pairs them up. *)
Definition hands_of (results : Results)
  : list (list Landmark * list Classification) :=
  zip (default [] (multi_hand_landmarks results))
      (default [] (multi_handedness results)).

(** A fingertip after the hands [views] were processed, [before] being its
    value before them. *)
Definition thumb_after (side : string) (views : list (string * (Point * Point)))
    (before : option Point) : option Point :=
  match last_labelled side views with
  | Some px => Some (fst px)
  | None => before
  end.

Definition index_after (side : string) (views : list (string * (Point * Point)))
    (before : option Point) : option Point :=
  match last_labelled side views with
  | Some px => Some (snd px)
  | None => before
  end.

(** Sample detector output: hands of 21 landmarks with the thumb tip
    (landmark 4) and the index tip (landmark 8) at the given places. *)
Definition sample_hand (side : string) (thumb index : Landmark)
  : list Landmark * list Classification :=
  (replicate 4 {| lm_x := 0; lm_y := 0 |} ++ [thumb]
   ++ replicate 3 {| lm_x := 0; lm_y := 0 |} ++ [index]
   ++ replicate 12 {| lm_x := 0; lm_y := 0 |},
   [{| label := side |}]).

Definition sample_results (hands : list (list Landmark * list Classification))
  : Results :=
  {| multi_hand_landmarks := Some (fst <$> hands);
     multi_handedness := Some (snd <$> hands) |}.

(** Whether the operator pressed [q]. *)
Definition flow_of (key : Z) : Flow :=
  if (Z.land key 255 =? 113)%Z then Break else Continue.

(** A sample frame: 200 by 200 pixels, one hand labelled [Left] with the
    thumb tip at the centre and the index tip below it, no key pressed. *)
Definition sample_left_hand : list Landmark * list Classification :=
  sample_hand "Left" {| lm_x := 0.5; lm_y := 0.5 |}
                     {| lm_x := 0.5; lm_y := 0.75 |}.

Definition sample_tick (now : R) : Tick :=
  {| ret := true; frame_h := 200; frame_w := 200;
     results := sample_results [sample_left_hand];
     now := now; key := -1 |}.

Definition sample_out : MidiOut := VirtualPort "PoseHandControl".

(** The decisions of the gate over successive frames, read at the times
    [times], starting with [last_send]: the loop sets [last_send] to the
    time of a frame when the decision of that frame is true. *)
Fixpoint gate_decisions (last_send : R) (times : list R) : list bool :=
  match times with
  | [] => []
  | now :: rest =>
      send_midi_now now last_send
      :: gate_decisions (if send_midi_now now last_send then now else last_send)
           rest
  end.

(** A range with [min = max], and one with [min > max]. *)
Definition degenerate_range : Range := {| MIN_DIST_PX := 20; MAX_DIST_PX := 20 |}.

(** ** The controller value from the squared distance

    The distances the program normalizes are square roots of integers, the
    squared pixel distances.  For the range of the source the exact
    controller value is an integer function of the squared distance [n]:
    the floor of [(127 * sqrt n - 2540) / 380] between the ends of the
    range. *)
Definition cc_of_squared (n : Z) : Z :=
  if (n <? 400)%Z then 0
  else if (160000 <=? n)%Z then 127
  else ((Z.sqrt (16129 * n) - 2540) / 380)%Z.

(** A check of [P] on [count] consecutive integers from [start] on. *)
Definition check_step (P : Z -> bool) (s : Z * bool) : Z * bool :=
  ((fst s + 1)%Z, snd s && P (fst s)).

Definition holds_from (P : Z -> bool) (start : Z) (count : positive) : bool :=
  snd (Pos.iter (check_step P) (start, true) count).

(** ** The arithmetic in IEEE binary64

    The numeric functions once more, on binary64 floats with
    round-to-nearest-even, which is what Python computes.  The range
    constants are Python ints in the source; in the operations below an int
    and the float of the same value give the same result, so they are
    floats here. *)

Module Binary64.

Import Floats.

Definition MIN_DIST_PX : float := 20.
Definition MAX_DIST_PX : float := 400.

(** [float(z)] for an integer [z]. *)
Definition of_int (z : Z) : float :=
  SF2Prim (binary_normalize prec emax z 0 false).

Definition min (a b : float) : float := if PrimFloat.ltb b a then b else a.

Definition max (a b : float) : float := if PrimFloat.ltb a b then b else a.

Definition truediv (a b : float) : Py.Res float :=
  if PrimFloat.eqb b 0 then inl Py.ZeroDivisionError
  else inr (PrimFloat.div a b).

(** [int(x)]: truncation toward zero of the value [m * 2 ^ e]; an infinity
    and a NaN raise. *)
Definition int (x : float) : Py.Res Z :=
  match Prim2SF x with
  | S754_zero _ => inr 0%Z
  | S754_finite s m e =>
      let magnitude :=
        (if 0 <=? e then Z.shiftl (Z.pos m) e else Z.shiftr (Z.pos m) (- e))%Z in
      inr (if s then (- magnitude)%Z else magnitude)
  | S754_infinity _ => inl Py.OverflowError
  | S754_nan => inl Py.ValueError
  end.

Definition normalize_to_cc (dist_px min_d max_d : float) : Py.Res Z :=
  let d := max min_d (min max_d dist_px) in
  match truediv (PrimFloat.sub d min_d) (PrimFloat.sub max_d min_d) with
  | inl e => inl e
  | inr norm => int (PrimFloat.mul norm 127)
  end.

(** [math.sqrt((x2 - x1) ** 2 + (y2 - y1) ** 2)]. *)
Definition distance (p1 p2 : Z * Z) : float :=
  PrimFloat.sqrt (of_int ((fst p2 - fst p1) ^ 2 + (snd p2 - snd p1) ^ 2)).

(** [int(tip * size)], a pixel coordinate. *)
Definition pixel_coordinate (tip : float) (size : Z) : Py.Res Z :=
  int (PrimFloat.mul tip (of_int size)).

Definition send_interval : float := PrimFloat.div 1 30.

Definition send_midi_now (now last_send : float) : bool :=
  PrimFloat.ltb send_interval (PrimFloat.sub now last_send).

(** The two checks run below: on a squared distance [n], binary64 gives
    the exact controller value; and the rounded square root of [n] is not
    below 400. *)
Definition agrees (n : Z) : bool :=
  match normalize_to_cc (PrimFloat.sqrt (of_uint63 (Uint63.of_Z n)))
          MIN_DIST_PX MAX_DIST_PX with
  | inr v => (v =? cc_of_squared n)%Z
  | inl _ => false
  end.

Definition beyond (n : Z) : bool :=
  negb (PrimFloat.ltb (PrimFloat.sqrt (of_uint63 (Uint63.of_Z n))) MAX_DIST_PX).

End Binary64.

(** ** Observations on whole runs *)

(** The markers drawn for the hands [hands], in order. *)
Definition markers (w h : Z) (hands : list (list Landmark * list Classification))
  : list Event :=
  flat_map (fun hand => match hand_view w h hand with
                        | Some (_, px) => hand_events hand px
                        | None => []
                        end) hands.

(** A Control Change message as the loop sends it: status 0xB0, one of the
    four controller numbers, a data byte. *)
Definition control_change (msg : list Z) : Prop :=
  exists c v : Z,
    msg = [176; c; v]%Z
    /\ In c [CC_LEFT_HAND; CC_RIGHT_HAND; CC_THUMB_TO_THUMB; CC_INDEX_TO_INDEX]
    /\ (0 <= v <= 127)%Z.

(** The events of the body of the loop: drawing on the frame, showing it,
    and Control Change messages to the output the loop was given. *)
Definition frame_event (out : MidiOut) (e : Event) : Prop :=
  match e with
  | CvLine _ _ _ _ | CvCircle _ _ _ _ | CvPutText _ _ _
  | DrawLandmarks _ | ImShow => True
  | SendMessage o msg => o = out /\ control_change msg
  | _ => False
  end.

(** One fingertip as the loop reads it from the dictionary of a frame. *)
Definition fingertip (coords : gmap string (gmap string (option Point)))
    (side finger : string) : option Point :=
  match getitem2 coords side finger with
  | inr v => v
  | inl _ => None
  end.

(** The messages of the pairs present in a frame, in the order of the four
    calls; none when the extraction raised. *)
Definition frame_messages (cfg : Range) (t : Tick) : list (list Z) :=
  match outcome (extract (frame_w t) (frame_h t) (results t)) with
  | inr coords =>
      flat_map (cc_message cfg)
        (channels (fingertip coords "Left" "thumb")
                  (fingertip coords "Left" "index")
                  (fingertip coords "Right" "thumb")
                  (fingertip coords "Right" "index"))
  | inl _ => []
  end.

(** A frame that the loop goes through to the end and that does not end
    it: the camera delivered it, the detector output could be read, and
    the quit key was not pressed. *)
Definition passes (t : Tick) : Prop :=
  ret t = true
  /\ flow_of (key t) = Continue
  /\ exists coords,
       outcome (extract (frame_w t) (frame_h t) (results t)) = inr coords.

(** ** Facts about the numeric operations *)

Lemma py_min_Rmin (a b : R) : Py.min a b = Rmin a b.
Proof.
  unfold Py.min, Rmin.
  destruct (decide (b < a)), (Rle_dec a b); lra.
Qed.

Lemma py_max_Rmax (a b : R) : Py.max a b = Rmax a b.
Proof.
  unfold Py.max, Rmax.
  destruct (decide (a < b)), (Rle_dec a b); lra.
Qed.

Lemma py_clamp (d lo hi : R) : Py.max lo (Py.min hi d) = clamp d lo hi.
Proof. unfold clamp. now rewrite py_min_Rmin, py_max_Rmax. Qed.

Lemma clamp_bounds (d lo hi : R) : lo <= hi -> lo <= clamp d lo hi <= hi.
Proof.
  intros Hle. unfold clamp, Rmax, Rmin.
  destruct (Rle_dec hi d), (Rle_dec lo hi), (Rle_dec lo d); lra.
Qed.

Lemma clamp_mono (d1 d2 lo hi : R) :
  d1 <= d2 -> clamp d1 lo hi <= clamp d2 lo hi.
Proof.
  intros Hle. unfold clamp.
  apply Rle_max_compat_l, Rle_min_compat_l, Hle.
Qed.

Lemma clamp_below (d lo hi : R) : lo <= hi -> d <= lo -> clamp d lo hi = lo.
Proof.
  intros H1 H2. unfold clamp, Rmax, Rmin.
  destruct (Rle_dec hi d), (Rle_dec lo hi), (Rle_dec lo d); lra.
Qed.

Lemma clamp_above (d lo hi : R) : lo <= hi -> hi <= d -> clamp d lo hi = hi.
Proof.
  intros H1 H2. unfold clamp, Rmax, Rmin.
  destruct (Rle_dec hi d), (Rle_dec lo hi), (Rle_dec lo d); lra.
Qed.

Lemma py_int_nonneg (x : R) : 0 <= x -> Py.int x = Zfloor x.
Proof.
  intros Hx. unfold Py.int. destruct (decide (x < 0)); [lra | reflexivity].
Qed.

Lemma py_int_IZR (z : Z) : Py.int (IZR z) = z.
Proof.
  unfold Py.int. destruct (decide (IZR z < 0)).
  - unfold Zceil. rewrite <- opp_IZR, ZfloorZ. lia.
  - apply ZfloorZ.
Qed.

Lemma py_int_mono (x y : R) : x <= y -> (Py.int x <= Py.int y)%Z.
Proof.
  intros Hxy. unfold Py.int.
  destruct (decide (x < 0)) as [Hx|Hx], (decide (y < 0)) as [Hy|Hy].
  - unfold Zceil. apply Z.opp_le_mono. rewrite !Z.opp_involutive.
    apply Zfloor_le. lra.
  - assert (Zceil x < 1)%Z as Bx
      by (apply lt_IZR; pose proof (Zceil_bound x); lra).
    assert (0 <= Zfloor y)%Z as By by (apply Zfloor_lub; lra).
    lia.
  - lra.
  - apply Zfloor_le, Hxy.
Qed.

(** ** The normalizer: agreement with the specification *)

Lemma scaled_bounds (d lo hi : R) :
  lo < hi -> 0 <= (clamp d lo hi - lo) / (hi - lo) * 127 <= 127.
Proof.
  intros Hlt.
  destruct (clamp_bounds d lo hi (Rlt_le _ _ Hlt)) as [Hlo Hhi].
  assert (0 < / (hi - lo)) as Hinv by (apply Rinv_0_lt_compat; lra).
  assert ((hi - lo) * / (hi - lo) = 1) as Hone by (apply Rinv_r; lra).
  unfold Rdiv. split; nra.
Qed.

Lemma scaled_mono (d1 d2 lo hi : R) :
  lo < hi -> d1 <= d2 ->
  (clamp d1 lo hi - lo) / (hi - lo) * 127
  <= (clamp d2 lo hi - lo) / (hi - lo) * 127.
Proof.
  intros Hlt Hle.
  pose proof (clamp_mono d1 d2 lo hi Hle) as Hc.
  assert (0 < / (hi - lo)) as Hinv by (apply Rinv_0_lt_compat; lra).
  unfold Rdiv. nra.
Qed.

Lemma scaled_inverted (d lo hi : R) :
  hi < lo -> (clamp d lo hi - lo) / (hi - lo) * 127 = 0.
Proof.
  intros Hlt.
  assert (clamp d lo hi = lo) as ->.
  { unfold clamp, Rmax, Rmin.
    destruct (Rle_dec hi d); destruct (Rle_dec lo _); lra. }
  unfold Rdiv. ring.
Qed.

Lemma scaled_bounds_ne (d lo hi : R) :
  lo <> hi -> 0 <= (clamp d lo hi - lo) / (hi - lo) * 127 <= 127.
Proof.
  intros Hne. destruct (Rlt_dec lo hi) as [Hlt|Hge].
  - apply scaled_bounds, Hlt.
  - rewrite scaled_inverted by lra. lra.
Qed.

Lemma normalize_to_cc_toCC (d lo hi : R) :
  lo <> hi -> normalize_to_cc d lo hi = inr (toCC_spec d lo hi).
Proof.
  intros Hne. unfold normalize_to_cc, Py.truediv, toCC_spec.
  destruct (decide (hi - lo = 0)) as [Hz|_]; [lra|].
  rewrite py_clamp, py_int_nonneg; [reflexivity|].
  apply scaled_bounds_ne, Hne.
Qed.



Lemma toCC_spec_range (d lo hi : R) :
  lo <> hi -> (0 <= toCC_spec d lo hi <= 127)%Z.
Proof.
  intros Hne. unfold toCC_spec.
  pose proof (scaled_bounds_ne d lo hi Hne) as [H0 H127].
  split.
  - apply Zfloor_lub. lra.
  - apply Z.le_trans with (Zfloor (IZR 127)).
    + apply Zfloor_le. lra.
    + rewrite ZfloorZ. lia.
Qed.

Lemma toCC_spec_mono (d1 d2 lo hi : R) :
  lo < hi -> d1 <= d2 -> (toCC_spec d1 lo hi <= toCC_spec d2 lo hi)%Z.
Proof.
  intros Hlt Hle. apply Zfloor_le, scaled_mono; assumption.
Qed.





(** C2.  For a range [lo < hi], every distance, inside the range or not,
    is mapped to an integer between 0 and 127, and a larger distance never
    gives a smaller value. *)
Theorem normalize_to_cc_bounded_monotone (lo hi : R) :
  lo < hi ->
  (forall d : R,
      exists v : Z, normalize_to_cc d lo hi = inr v /\ (0 <= v <= 127)%Z)
  /\ (forall (d1 d2 : R) (v1 v2 : Z),
         d1 <= d2 ->
         normalize_to_cc d1 lo hi = inr v1 ->
         normalize_to_cc d2 lo hi = inr v2 ->
         (v1 <= v2)%Z).
Proof.
  intros Hlt. split.
  - intros d. exists (toCC_spec d lo hi). split.
    + apply normalize_to_cc_toCC; lra.
    + apply toCC_spec_range; lra.
  - intros d1 d2 v1 v2 Hle H1 H2.
    rewrite normalize_to_cc_toCC in H1, H2 by lra.
    injection H1 as <-. injection H2 as <-.
    apply toCC_spec_mono; assumption.
Qed.

Lemma normalize_to_cc_bounded_monotone_witness :
  exists v : Z, normalize_to_cc 1000 20 400 = inr v /\ (0 <= v <= 127)%Z.
Proof.
  apply (normalize_to_cc_bounded_monotone 20 400); lra.
Defined.

(** ** Geometry *)




Lemma distance_of_ints (x1 y1 x2 y2 : Z) :
  sqrt (IZR ((x2 - x1) ^ 2 + (y2 - y1) ^ 2)) = distance (x1, y1) (x2, y2).
Proof.
  unfold distance. simpl fst. simpl snd.
  rewrite plus_IZR.
  change 2%Z with (Z.of_nat 2).
  rewrite <- !pow_IZR, !minus_IZR. reflexivity.
Qed.

Lemma angle_of_ints (x1 y1 x2 y2 : Z) :
  Py.degrees (Py.atan2 (IZR (y2 - y1)) (IZR (x2 - x1)))
  = angle_degrees (x1, y1) (x2, y2).
Proof.
  unfold angle_degrees, Py.degrees. simpl fst. simpl snd.
  rewrite !minus_IZR. unfold Rdiv. ring.
Qed.




(** ** One pair: what [draw_line_info] does *)

Lemma shipped_valid : MIN_DIST_PX shipped <> MAX_DIST_PX shipped.
Proof. simpl. lra. Qed.

Lemma draw_line_info_absent (cfg : Range) (p1 p2 : option Point)
    (lbl : string) (col : Color) (mo : option MidiOut) (cco : option Z) :
  p1 = None \/ p2 = None ->
  draw_line_info cfg p1 p2 lbl col mo cco = ([], inr None).
Proof.
  intros [-> | ->]; unfold draw_line_info.
  - reflexivity.
  - destruct p1 as [[x1 y1]|]; reflexivity.
Qed.

Lemma send_value_unchanged (v : Z) :
  (0 <= v <= 127)%Z -> Z.max 0 (Z.min 127 v) = v.
Proof. lia. Qed.

Lemma draw_line_info_present (cfg : Range) (a b : Point)
    (lbl : string) (col : Color) (mo : option MidiOut) (cco : option Z) :
  MIN_DIST_PX cfg <> MAX_DIST_PX cfg ->
  draw_line_info cfg (Some a) (Some b) lbl col mo cco
  = ([ CvLine a b col 2;
       CvPutText {| cap_label := lbl; cap_d := cc_value cfg a b;
                    cap_a := angle_degrees a b |} (caption_origin a b) col ]
     ++ match cco, mo with
        | Some c, Some o =>
            [SendMessage o [176; Z.land c 127; cc_value cfg a b]%Z]
        | _, _ => []
        end,
     inr (Some (distance a b, angle_degrees a b))).
Proof.
  intros Hr. destruct a as [x1 y1], b as [x2 y2].
  unfold draw_line_info.
  rewrite distance_of_ints, angle_of_ints, normalize_to_cc_toCC by exact Hr.
  fold (cc_value cfg (x1, y1) (x2, y2)).
  pose proof (toCC_spec_range (distance (x1, y1) (x2, y2)) _ _ Hr) as Hv.
  fold (cc_value cfg (x1, y1) (x2, y2)) in Hv.
  destruct cco as [c|], mo as [o|]; cbn;
    rewrite ?send_value_unchanged by exact Hv; reflexivity.
Qed.

Lemma bind_value {A B : Type} (tr : list Event) (a : A) (k : A -> M B) :
  bind (tr, inr a) k = (tr ++ fst (k a), snd (k a)).
Proof. unfold bind. destruct (k a). reflexivity. Qed.

Lemma bind_raise {A B : Type} (tr : list Event) (e : Py.Exn) (k : A -> M B) :
  bind (tr, inl e) k = (tr, inl e).
Proof. reflexivity. Qed.

Lemma land_127 (c : Z) : (0 <= c <= 127)%Z -> Z.land c 127 = c.
Proof.
  intros Hc. change 127%Z with (Z.ones 7).
  rewrite Z.land_ones by lia. apply Z.mod_small. simpl. lia.
Qed.

Lemma draw_channel (cfg : Range) (out : MidiOut) (gate : bool) (ch : Channel) :
  MIN_DIST_PX cfg <> MAX_DIST_PX cfg ->
  (0 <= ch_cc ch <= 127)%Z ->
  draw_line_info cfg (ch_p1 ch) (ch_p2 ch) (ch_label ch) (ch_color ch)
    (gated_out gate out) (gated_cc gate (ch_cc ch))
  = (channel_events cfg out gate ch, inr (measure (ch_p1 ch) (ch_p2 ch))).
Proof.
  intros Hr Hc. unfold channel_events, overlay_events, cc_message, measure.
  destruct (ch_p1 ch) as [a|] eqn:E1; [destruct (ch_p2 ch) as [b|] eqn:E2|].
  - rewrite draw_line_info_present by exact Hr.
    destruct gate; simpl; rewrite ?land_127 by exact Hc; reflexivity.
  - rewrite draw_line_info_absent by (right; reflexivity).
    destruct gate; reflexivity.
  - rewrite draw_line_info_absent by (left; reflexivity).
    destruct gate; reflexivity.
Qed.

Lemma draw_all_events (cfg : Range) (out : MidiOut) (gate : bool)
    (lt li rt ri : option Point) :
  MIN_DIST_PX cfg <> MAX_DIST_PX cfg ->
  draw_all cfg lt li rt ri (gated_out gate out) (gated_cc gate)
  = (flat_map (channel_events cfg out gate) (channels lt li rt ri),
     inr (map (fun ch => measure (ch_p1 ch) (ch_p2 ch))
            (channels lt li rt ri))).
Proof.
  intros Hr. unfold draw_all, channels.
  assert (forall ch, In ch (channels lt li rt ri) -> (0 <= ch_cc ch <= 127)%Z)
    as Hcc.
  { intros ch [<-|[<-|[<-|[<-|[]]]]]; simpl; unfold CC_LEFT_HAND,
      CC_RIGHT_HAND, CC_THUMB_TO_THUMB, CC_INDEX_TO_INDEX; lia. }
  simpl flat_map. simpl map.
  repeat match goal with
  | |- context [channel_events cfg out gate ?ch] =>
      let H := fresh in
      pose proof (draw_channel cfg out gate ch Hr) as H;
      simpl ch_p1 in H; simpl ch_p2 in H; simpl ch_label in H;
      simpl ch_color in H; simpl ch_cc in H;
      rewrite H by (apply (Hcc ch); unfold channels; simpl; tauto);
      clear H; rewrite bind_value; cbv beta
  end.
  simpl. rewrite !app_nil_r. reflexivity.
Qed.

(** ** One frame once the fingertips are known *)

Lemma getitem2_coords_of (lt li rt ri : option Point) :
  getitem2 (coords_of lt li rt ri) "Left" "thumb" = inr lt
  /\ getitem2 (coords_of lt li rt ri) "Left" "index" = inr li
  /\ getitem2 (coords_of lt li rt ri) "Right" "thumb" = inr rt
  /\ getitem2 (coords_of lt li rt ri) "Right" "index" = inr ri.
Proof. repeat split; reflexivity. Qed.

Lemma measure_and_send_events (cfg : Range) (out : MidiOut) (last now : R)
    (lt li rt ri : option Point) :
  MIN_DIST_PX cfg <> MAX_DIST_PX cfg ->
  measure_and_send cfg out last (coords_of lt li rt ri) now
  = (flat_map (channel_events cfg out (send_midi_now now last))
       (channels lt li rt ri),
     inr (map (fun ch => measure (ch_p1 ch) (ch_p2 ch)) (channels lt li rt ri),
          if send_midi_now now last then now else last)).
Proof.
  intros Hr. unfold measure_and_send.
  destruct (getitem2_coords_of lt li rt ri) as (-> & -> & -> & ->).
  unfold lift. rewrite !bind_value. cbv beta. simpl fst. simpl snd.
  destruct (send_midi_now now last).
  - change (draw_all cfg lt li rt ri (Some out) Some)
      with (draw_all cfg lt li rt ri (gated_out true out) (gated_cc true)).
    rewrite draw_all_events by exact Hr. rewrite bind_value. simpl.
    rewrite app_nil_r. reflexivity.
  - change (draw_all cfg lt li rt ri None (fun _ => None))
      with (draw_all cfg lt li rt ri (gated_out false out) (gated_cc false)).
    rewrite draw_all_events by exact Hr. rewrite bind_value. simpl.
    rewrite app_nil_r. reflexivity.
Qed.

(** ** The fingertip extractor *)

Lemma coords_of_other (lt li rt ri : option Point) (s : string) :
  s <> "Left" -> s <> "Right" -> coords_of lt li rt ri !! s = None.
Proof.
  intros HL HR. unfold coords_of.
  rewrite lookup_insert_ne by congruence.
  rewrite lookup_insert_ne by congruence.
  apply lookup_empty.
Qed.

Lemma hand_step_no_view (w h : Z) (coords : gmap string (gmap string (option Point)))
    (hand : list Landmark * list Classification) :
  hand_view w h hand = None ->
  hand_step w h coords hand = ([], inl Py.IndexError).
Proof.
  destruct hand as [lms cls]. unfold hand_view, hand_step, getitem. simpl.
  destruct (cls !! 0%nat); [|reflexivity].
  destruct (lms !! 4%nat); [|reflexivity].
  destruct (lms !! 8%nat); [discriminate|reflexivity].
Qed.

Lemma hand_step_view (w h : Z) (lt li rt ri : option Point)
    (hand : list Landmark * list Classification) (s : string)
    (px : Point * Point) :
  hand_view w h hand = Some (s, px) ->
  hand_step w h (coords_of lt li rt ri) hand
  = if decide (s = "Left") then
      (hand_events hand px, inr (coords_of (Some (fst px)) (Some (snd px)) rt ri))
    else if decide (s = "Right") then
      (hand_events hand px, inr (coords_of lt li (Some (fst px)) (Some (snd px))))
    else ([], inl (Py.KeyError s)).
Proof.
  destruct hand as [lms cls]. unfold hand_view, hand_step, getitem. simpl.
  destruct (cls !! 0%nat) as [c|]; [|discriminate].
  destruct (lms !! 4%nat) as [t|]; [|discriminate].
  destruct (lms !! 8%nat) as [i|]; [|discriminate].
  intros [= <- <-].
  generalize (label c) (pixel t w h) (pixel i w h). intros s pt pi.
  destruct (decide (s = "Left")) as [->|HL].
  - reflexivity.
  - destruct (decide (s = "Right")) as [->|HR].
    + reflexivity.
    + unfold setitem2. rewrite coords_of_other by assumption. reflexivity.
Qed.

Lemma extract_hands_of (w h : Z) (results : Results) :
  extract w h results = for_each (hand_step w h) fresh_coords (hands_of results).
Proof.
  unfold extract, hands_of.
  destruct (multi_hand_landmarks results) as [[|l ls]|];
    destruct (multi_handedness results) as [[|c cs]|]; reflexivity.
Qed.

Lemma for_each_cons {A S : Type} (body : S -> A -> M S) (s : S) (x : A)
    (xs : list A) :
  for_each body s (x :: xs) = bind (body s x) (fun s' => for_each body s' xs).
Proof. reflexivity. Qed.

Lemma for_each_paired (w h : Z) (hands : list (list Landmark * list Classification)) :
  forall (lt li rt ri : option Point) (tr : list Event)
         (coords : gmap string (gmap string (option Point))),
    paired lt li -> paired rt ri ->
    for_each (hand_step w h) (coords_of lt li rt ri) hands = (tr, inr coords) ->
    exists lt' li' rt' ri' : option Point,
      coords = coords_of lt' li' rt' ri' /\ paired lt' li' /\ paired rt' ri'.
Proof.
  induction hands as [|hand rest IH]; intros lt li rt ri tr coords HL HR Hrun.
  - injection Hrun as _ <-. exists lt, li, rt, ri. auto.
  - rewrite for_each_cons in Hrun.
    destruct (hand_view w h hand) as [[s px]|] eqn:Hview.
    + rewrite (hand_step_view _ _ _ _ _ _ _ _ _ Hview) in Hrun.
      destruct (decide (s = "Left")); [|destruct (decide (s = "Right"))].
      * rewrite bind_value in Hrun.
        destruct (for_each _ _ rest) as [tr' r'] eqn:Hrest.
        simpl in Hrun. injection Hrun as _ ->.
        apply (IH _ _ _ _ _ _ (or_intror (ex_intro _ _ (ex_intro _ _ (conj eq_refl eq_refl)))) HR Hrest).
      * rewrite bind_value in Hrun.
        destruct (for_each _ _ rest) as [tr' r'] eqn:Hrest.
        simpl in Hrun. injection Hrun as _ ->.
        apply (IH _ _ _ _ _ _ HL (or_intror (ex_intro _ _ (ex_intro _ _ (conj eq_refl eq_refl)))) Hrest).
      * rewrite bind_raise in Hrun. discriminate.
    + rewrite (hand_step_no_view _ _ _ _ Hview), bind_raise in Hrun.
      discriminate.
Qed.

Lemma for_each_detected (w h : Z) (hands : list (list Landmark * list Classification)) :
  Forall (detected w h) hands ->
  forall lt li rt ri : option Point,
    let views := omap (hand_view w h) hands in
    exists tr : list Event,
      for_each (hand_step w h) (coords_of lt li rt ri) hands
      = (tr, inr (coords_of (thumb_after "Left" views lt)
                            (index_after "Left" views li)
                            (thumb_after "Right" views rt)
                            (index_after "Right" views ri))).
Proof.
  induction 1 as [|hand rest (s & px & Hview & Hside) Hrest IH];
    intros lt li rt ri views.
  - exists []. reflexivity.
  - rewrite for_each_cons, (hand_step_view _ _ _ _ _ _ _ _ _ Hview).
    subst views. simpl omap. rewrite Hview.
    unfold thumb_after, index_after. simpl last_labelled.
    destruct Hside as [-> | ->].
    + destruct (decide ("Left" = "Left")) as [_|]; [|congruence].
      destruct (decide ("Left" = "Right")) as [|_]; [discriminate|].
      destruct (IH (Some (fst px)) (Some (snd px)) rt ri) as [tr Htr].
      rewrite bind_value, Htr. simpl.
      exists (hand_events hand px ++ tr). f_equal. f_equal.
      unfold thumb_after, index_after.
      destruct (last_labelled "Left" _), (last_labelled "Right" _); reflexivity.
    + destruct (decide ("Right" = "Left")) as [|_]; [discriminate|].
      destruct (decide ("Right" = "Right")) as [_|]; [|congruence].
      destruct (IH lt li (Some (fst px)) (Some (snd px))) as [tr Htr].
      rewrite bind_value, Htr. simpl.
      exists (hand_events hand px ++ tr). f_equal. f_equal.
      unfold thumb_after, index_after.
      destruct (last_labelled "Left" _), (last_labelled "Right" _); reflexivity.
Qed.

Lemma last_labelled_none (side : string) (views : list (string * (Point * Point))) :
  Forall (fun v => fst v <> side) views -> last_labelled side views = None.
Proof.
  induction 1 as [|[s px] rest Hne _ IH]; [reflexivity|].
  simpl in *. rewrite IH. destruct (decide (s = side)); [contradiction|reflexivity].
Qed.

Lemma last_labelled_app (side : string) (px : Point * Point)
    (l1 l2 : list (string * (Point * Point))) :
  last_labelled side l2 = None ->
  last_labelled side (l1 ++ (side, px) :: l2) = Some px.
Proof.
  intros Hnone. induction l1 as [|[s p] l1 IH]; simpl.
  - rewrite Hnone. destruct (decide (side = side)); [reflexivity|congruence].
  - rewrite IH. reflexivity.
Qed.

Lemma sample_hand_view (w h : Z) (side : string) (thumb index : Landmark) :
  hand_view w h (sample_hand side thumb index)
  = Some (side, (pixel thumb w h, pixel index w h)).
Proof. reflexivity. Qed.

Lemma sample_hand_detected (w h : Z) (side : string) (thumb index : Landmark) :
  side = "Left" \/ side = "Right" ->
  detected w h (sample_hand side thumb index).
Proof.
  intros Hside. exists side, (pixel thumb w h, pixel index w h).
  split; [apply sample_hand_view | exact Hside].
Qed.

(** C9.  When the hands of a frame are as the detector is specified to
    return them, the extractor raises nothing, and the fingertips recorded
    for a side are those of the last hand with that label: a later hand
    with the same label overwrites what an earlier one (in [before]) had
    written. *)
Theorem extract_last_write_wins (w h : Z) (results : Results)
    (before after : list (list Landmark * list Classification))
    (hand : list Landmark * list Classification)
    (side : string) (px : Point * Point) :
  hands_of results = before ++ hand :: after ->
  Forall (detected w h) (before ++ hand :: after) ->
  hand_view w h hand = Some (side, px) ->
  Forall (fun later => forall p, hand_view w h later <> Some (side, p)) after ->
  exists (tr : list Event) (coords : gmap string (gmap string (option Point))),
    extract w h results = (tr, inr coords)
    /\ getitem2 coords side "thumb" = inr (Some (fst px))
    /\ getitem2 coords side "index" = inr (Some (snd px)).
Proof.
  intros Hhands Hdet Hview Hlast.
  rewrite extract_hands_of, Hhands.
  destruct (for_each_detected w h _ Hdet None None None None) as [tr Htr].
  exists tr. eexists. split; [exact Htr|].
  assert (last_labelled side (omap (hand_view w h) (before ++ hand :: after))
          = Some px) as Hpx.
  { rewrite omap_app. simpl omap. rewrite Hview.
    apply last_labelled_app, last_labelled_none.
    clear -Hlast. induction Hlast as [|later rest Hne _ IH]; simpl.
    - constructor.
    - destruct (hand_view w h later) as [[s p]|] eqn:Hv; [|exact IH].
      constructor; [|exact IH]. simpl. intros ->. apply (Hne p). reflexivity. }
  assert (side = "Left" \/ side = "Right") as Hside.
  { apply Forall_app in Hdet as [_ Hdet].
    apply Forall_cons in Hdet as [(s & p & Hv & Hs) _].
    rewrite Hview in Hv. injection Hv as -> _. exact Hs. }
  unfold thumb_after, index_after.
  destruct Hside as [-> | ->]; rewrite Hpx; split; reflexivity.
Qed.

Lemma pixel_exact (x y : R) (w h px py : Z) :
  x * IZR w = IZR px -> y * IZR h = IZR py ->
  pixel {| lm_x := x; lm_y := y |} w h = (px, py).
Proof.
  intros Hx Hy. unfold pixel. simpl. rewrite Hx, Hy, !py_int_IZR. reflexivity.
Qed.

Lemma extract_last_write_wins_witness :
  exists (tr : list Event) (coords : gmap string (gmap string (option Point))),
    extract 200 200
      (sample_results
         [ sample_hand "Left" {| lm_x := 0.25; lm_y := 0.25 |}
                              {| lm_x := 0.25; lm_y := 0.5 |};
           sample_hand "Left" {| lm_x := 0.5; lm_y := 0.5 |}
                              {| lm_x := 0.5; lm_y := 0.75 |} ])
    = (tr, inr coords)
    /\ getitem2 coords "Left" "thumb" = inr (Some (100, 100)%Z)
    /\ getitem2 coords "Left" "index" = inr (Some (100, 150)%Z).
Proof.
  apply (extract_last_write_wins 200 200 _
           [ sample_hand "Left" {| lm_x := 0.25; lm_y := 0.25 |}
                                {| lm_x := 0.25; lm_y := 0.5 |} ]
           []
           (sample_hand "Left" {| lm_x := 0.5; lm_y := 0.5 |}
                               {| lm_x := 0.5; lm_y := 0.75 |})
           "Left" ((100, 100)%Z, (100, 150)%Z)).
  - reflexivity.
  - repeat constructor; apply sample_hand_detected; left; reflexivity.
  - rewrite sample_hand_view.
    rewrite (pixel_exact 0.5 0.5 200 200 100 100) by lra.
    rewrite (pixel_exact 0.5 0.75 200 200 100 150) by lra.
    reflexivity.
  - constructor.
Defined.

(** C10.  In the fingertips the extractor returns for a frame, the thumb
    and the index of each side are both present or both absent. *)
Theorem extract_fingertips_paired (w h : Z) (results : Results)
    (tr : list Event) (coords : gmap string (gmap string (option Point)))
    (side : string) :
  extract w h results = (tr, inr coords) ->
  side = "Left" \/ side = "Right" ->
  exists thumb index : option Point,
    getitem2 coords side "thumb" = inr thumb
    /\ getitem2 coords side "index" = inr index
    /\ paired thumb index.
Proof.
  intros Hrun Hside. rewrite extract_hands_of in Hrun.
  assert (paired None None) as Hnone by (left; split; reflexivity).
  change fresh_coords with (coords_of None None None None) in Hrun.
  destruct (for_each_paired w h _ _ _ _ _ _ _ Hnone Hnone Hrun)
    as (lt & li & rt & ri & -> & HL & HR).
  destruct Hside as [-> | ->].
  - exists lt, li. repeat split; [reflexivity .. | exact HL].
  - exists rt, ri. repeat split; [reflexivity .. | exact HR].
Qed.

Lemma extract_fingertips_paired_witness :
  exists thumb index : option Point,
    getitem2 (coords_of (Some (pixel {| lm_x := 0.5; lm_y := 0.5 |} 200 200))
                (Some (pixel {| lm_x := 0.5; lm_y := 0.75 |} 200 200)) None None)
      "Left" "thumb" = inr thumb
    /\ getitem2 (coords_of (Some (pixel {| lm_x := 0.5; lm_y := 0.5 |} 200 200))
                   (Some (pixel {| lm_x := 0.5; lm_y := 0.75 |} 200 200)) None None)
         "Left" "index" = inr index
    /\ paired thumb index.
Proof.
  apply (extract_fingertips_paired 200 200
           (sample_results
              [ sample_hand "Left" {| lm_x := 0.5; lm_y := 0.5 |}
                                   {| lm_x := 0.5; lm_y := 0.75 |} ])
           (hand_events
              (sample_hand "Left" {| lm_x := 0.5; lm_y := 0.5 |}
                                  {| lm_x := 0.5; lm_y := 0.75 |})
              (pixel {| lm_x := 0.5; lm_y := 0.5 |} 200 200,
               pixel {| lm_x := 0.5; lm_y := 0.75 |} 200 200))).
  - reflexivity.
  - left. reflexivity.
Defined.

(** ** One iteration of the loop *)

Lemma extract_shape (w h : Z) (results : Results) (tr : list Event)
    (coords : gmap string (gmap string (option Point))) :
  extract w h results = (tr, inr coords) ->
  exists lt li rt ri : option Point, coords = coords_of lt li rt ri.
Proof.
  intros Hrun. rewrite extract_hands_of in Hrun.
  assert (paired None None) as Hnone by (left; split; reflexivity).
  change fresh_coords with (coords_of None None None None) in Hrun.
  destruct (for_each_paired w h _ _ _ _ _ _ _ Hnone Hnone Hrun)
    as (lt & li & rt & ri & -> & _ & _).
  exists lt, li, rt, ri. reflexivity.
Qed.

Lemma midi_messages_app (tr1 tr2 : list Event) :
  midi_messages (tr1 ++ tr2) = midi_messages tr1 ++ midi_messages tr2.
Proof. apply omap_app. Qed.

Lemma for_each_no_midi (w h : Z) (hands : list (list Landmark * list Classification)) :
  forall lt li rt ri : option Point,
    midi_messages (trace (for_each (hand_step w h) (coords_of lt li rt ri) hands))
    = [].
Proof.
  induction hands as [|hand rest IH]; intros lt li rt ri; [reflexivity|].
  rewrite for_each_cons.
  destruct (hand_view w h hand) as [[s px]|] eqn:Hview.
  - rewrite (hand_step_view _ _ _ _ _ _ _ _ _ Hview).
    destruct (decide (s = "Left")); [|destruct (decide (s = "Right"))];
      rewrite ?bind_value, ?bind_raise; unfold trace; simpl fst;
      rewrite ?midi_messages_app; try reflexivity.
    + apply (IH (Some (fst px)) (Some (snd px)) rt ri).
    + apply (IH lt li (Some (fst px)) (Some (snd px))).
  - rewrite (hand_step_no_view _ _ _ _ Hview), bind_raise. reflexivity.
Qed.

Lemma extract_no_midi (w h : Z) (results : Results) :
  midi_messages (trace (extract w h results)) = [].
Proof.
  rewrite extract_hands_of. apply (for_each_no_midi w h _ None None None None).
Qed.

Lemma midi_messages_channel (cfg : Range) (out : MidiOut) (gate : bool)
    (ch : Channel) :
  midi_messages (channel_events cfg out gate ch)
  = if gate then cc_message cfg ch else [].
Proof.
  unfold channel_events, overlay_events, cc_message.
  destruct (ch_p1 ch), (ch_p2 ch), gate; reflexivity.
Qed.

Lemma midi_messages_channels (cfg : Range) (out : MidiOut) (gate : bool)
    (chs : list Channel) :
  midi_messages (flat_map (channel_events cfg out gate) chs)
  = if gate then flat_map (cc_message cfg) chs else [].
Proof.
  induction chs as [|ch rest IH]; simpl.
  - destruct gate; reflexivity.
  - rewrite midi_messages_app, midi_messages_channel, IH.
    destruct gate; reflexivity.
Qed.

Lemma iteration_events (cfg : Range) (out : MidiOut) (last : R) (t : Tick)
    (trE : list Event) (lt li rt ri : option Point) :
  MIN_DIST_PX cfg <> MAX_DIST_PX cfg ->
  ret t = true ->
  extract (frame_w t) (frame_h t) (results t) = (trE, inr (coords_of lt li rt ri)) ->
  iteration cfg out last t
  = (trE
     ++ flat_map (channel_events cfg out (send_midi_now (now t) last))
          (channels lt li rt ri)
     ++ [ImShow],
     inr (flow_of (key t), if send_midi_now (now t) last then now t else last)).
Proof.
  intros Hr Hret Hex. unfold iteration, flow_of. rewrite Hret. simpl negb. cbv iota.
  rewrite Hex, bind_value. cbv beta.
  rewrite measure_and_send_events by exact Hr.
  rewrite bind_value. cbv beta. simpl snd.
  destruct (Z.land (key t) 255 =? 113)%Z; simpl; rewrite <- ?app_assoc; reflexivity.
Qed.

Lemma channels_cc_inj (lt li rt ri : option Point) (ch ch' : Channel) :
  In ch (channels lt li rt ri) -> In ch' (channels lt li rt ri) ->
  ch_cc ch = ch_cc ch' -> ch = ch'.
Proof.
  unfold channels.
  intros [<-|[<-|[<-|[<-|[]]]]] [<-|[<-|[<-|[<-|[]]]]]; simpl;
    intros Hcc; try reflexivity; discriminate Hcc.
Qed.

Lemma in_cc_messages (cfg : Range) (chs : list Channel) (msg : list Z) :
  In msg (flat_map (cc_message cfg) chs)
  <-> exists (ch : Channel) (a b : Point),
        In ch chs /\ ch_p1 ch = Some a /\ ch_p2 ch = Some b
        /\ msg = [176; ch_cc ch; cc_value cfg a b]%Z.
Proof.
  rewrite in_flat_map. split.
  - intros (ch & Hin & Hmsg). unfold cc_message in Hmsg.
    destruct (ch_p1 ch) as [a|] eqn:E1; [|contradiction].
    destruct (ch_p2 ch) as [b|] eqn:E2; [|contradiction].
    destruct Hmsg as [<-|[]]. exists ch, a, b. auto.
  - intros (ch & a & b & Hin & E1 & E2 & ->). exists ch. split; [exact Hin|].
    unfold cc_message. rewrite E1, E2. left. reflexivity.
Qed.

Lemma iteration_midi (cfg : Range) (out : MidiOut) (last : R) (t : Tick)
    (trE : list Event) (lt li rt ri : option Point) :
  MIN_DIST_PX cfg <> MAX_DIST_PX cfg ->
  ret t = true ->
  extract (frame_w t) (frame_h t) (results t) = (trE, inr (coords_of lt li rt ri)) ->
  midi_messages (trace (iteration cfg out last t))
  = if send_midi_now (now t) last
    then flat_map (cc_message cfg) (channels lt li rt ri)
    else [].
Proof.
  intros Hr Hret Hex.
  rewrite (iteration_events cfg out last t trE lt li rt ri Hr Hret Hex).
  unfold trace. cbn [fst].
  rewrite !midi_messages_app, midi_messages_channels.
  pose proof (extract_no_midi (frame_w t) (frame_h t) (results t)) as HE.
  rewrite Hex in HE. unfold trace in HE. simpl in HE. rewrite HE.
  destruct (send_midi_now (now t) last); simpl; rewrite ?app_nil_r; reflexivity.
Qed.

Lemma overlay_in_channels (cfg : Range) (out : MidiOut) (gate : bool)
    (chs : list Channel) (ch : Channel) (e : Event) :
  In ch chs -> In e (overlay_events cfg ch) ->
  In e (flat_map (channel_events cfg out gate) chs).
Proof.
  intros Hch He. apply in_flat_map. exists ch. split; [exact Hch|].
  unfold channel_events. apply in_or_app. left. exact He.
Qed.

(** C3.  In a frame whose fingertips were extracted, and for each of the
    four pairs: a Control Change message with the controller number of the
    pair is sent iff the emit decision of the frame is true and both
    endpoints are present; a message that is sent carries the value of the
    two points of this frame; the frame raises nothing; and a pair with both
    endpoints has its line and its caption drawn whatever the decision. *)
Theorem frame_emission (out : MidiOut) (last : R) (t : Tick)
    (trE : list Event) (coords : gmap string (gmap string (option Point))) :
  ret t = true ->
  extract (frame_w t) (frame_h t) (results t) = (trE, inr coords) ->
  exists lt li rt ri : option Point,
    coords = coords_of lt li rt ri
    /\ outcome (iteration shipped out last t)
       = inr (flow_of (key t),
              if send_midi_now (now t) last then now t else last)
    /\ forall ch : Channel,
        In ch (channels lt li rt ri) ->
        ((exists v : Z,
             In [176; ch_cc ch; v]%Z
                (midi_messages (trace (iteration shipped out last t))))
         <-> send_midi_now (now t) last = true /\ present ch = true)
        /\ (forall v : Z,
               In [176; ch_cc ch; v]%Z
                  (midi_messages (trace (iteration shipped out last t))) ->
               exists a b : Point,
                 ch_p1 ch = Some a /\ ch_p2 ch = Some b
                 /\ v = cc_value shipped a b)
        /\ (forall a b : Point,
               ch_p1 ch = Some a -> ch_p2 ch = Some b ->
               In (CvLine a b (ch_color ch) 2)
                  (trace (iteration shipped out last t))
               /\ In (CvPutText {| cap_label := ch_label ch;
                                   cap_d := cc_value shipped a b;
                                   cap_a := angle_degrees a b |}
                        (caption_origin a b) (ch_color ch))
                     (trace (iteration shipped out last t))).
Proof.
  intros Hret Hex.
  destruct (extract_shape _ _ _ _ _ Hex) as (lt & li & rt & ri & ->).
  exists lt, li, rt, ri. split; [reflexivity|].
  pose proof (iteration_events shipped out last t trE lt li rt ri
                shipped_valid Hret Hex) as Hit.
  pose proof (iteration_midi shipped out last t trE lt li rt ri
                shipped_valid Hret Hex) as Hmidi.
  split; [rewrite Hit; reflexivity|].
  intros ch Hch.
  assert (forall v : Z,
             In [176; ch_cc ch; v]%Z
                (midi_messages (trace (iteration shipped out last t)))
             <-> send_midi_now (now t) last = true
                 /\ exists a b : Point,
                      ch_p1 ch = Some a /\ ch_p2 ch = Some b
                      /\ v = cc_value shipped a b) as Hsent.
  { intros v. rewrite Hmidi. split.
    - destruct (send_midi_now (now t) last); [|intros []].
      intros Hin. split; [reflexivity|].
      apply in_cc_messages in Hin as (ch' & a & b & Hch' & E1 & E2 & Hmsg).
      injection Hmsg as Hcc Hv.
      apply (channels_cc_inj lt li rt ri ch ch' Hch Hch') in Hcc as <-.
      exists a, b. auto.
    - intros (-> & a & b & E1 & E2 & ->).
      apply in_cc_messages. exists ch, a, b. auto. }
  split; [|split].
  - split.
    + intros (v & Hin). apply Hsent in Hin as (Hgate & a & b & E1 & E2 & _).
      split; [exact Hgate|]. unfold present. rewrite E1, E2. reflexivity.
    + intros (Hgate & Hpres). unfold present in Hpres.
      destruct (ch_p1 ch) as [a|] eqn:E1; [|discriminate].
      destruct (ch_p2 ch) as [b|] eqn:E2; [|discriminate].
      exists (cc_value shipped a b). apply Hsent. split; [exact Hgate|].
      exists a, b. auto.
  - intros v Hin. apply Hsent in Hin as (_ & Hab). exact Hab.
  - intros a b E1 E2. rewrite Hit. unfold trace. cbn [fst].
    split; apply in_or_app; right; apply in_or_app; left;
      apply (overlay_in_channels shipped out _ _ ch); try exact Hch;
      unfold overlay_events; rewrite E1, E2; simpl; auto.
Qed.

Lemma sample_left_hand_view :
  hand_view 200 200 sample_left_hand
  = Some ("Left", ((100, 100)%Z, (100, 150)%Z)).
Proof.
  unfold sample_left_hand. rewrite sample_hand_view.
  rewrite (pixel_exact 0.5 0.5 200 200 100 100) by lra.
  rewrite (pixel_exact 0.5 0.75 200 200 100 150) by lra.
  reflexivity.
Qed.

Lemma sample_tick_extract (now : R) :
  extract (frame_w (sample_tick now)) (frame_h (sample_tick now))
    (results (sample_tick now))
  = (hand_events sample_left_hand ((100, 100)%Z, (100, 150)%Z),
     inr (coords_of (Some (100, 100)%Z) (Some (100, 150)%Z) None None)).
Proof.
  rewrite extract_hands_of.
  change (hands_of (results (sample_tick now))) with [sample_left_hand].
  rewrite for_each_cons.
  change fresh_coords with (coords_of None None None None).
  rewrite (hand_step_view _ _ _ _ _ _ _ _ _ sample_left_hand_view).
  reflexivity.
Qed.

Lemma frame_emission_witness :
  exists lt li rt ri : option Point,
    coords_of (Some (100, 100)%Z) (Some (100, 150)%Z) None None
    = coords_of lt li rt ri
    /\ outcome (iteration shipped sample_out 0 (sample_tick 1))
       = inr (flow_of (key (sample_tick 1)),
              if send_midi_now (now (sample_tick 1)) 0
              then now (sample_tick 1) else 0)
    /\ forall ch : Channel,
        In ch (channels lt li rt ri) ->
        ((exists v : Z,
             In [176; ch_cc ch; v]%Z
                (midi_messages (trace (iteration shipped sample_out 0 (sample_tick 1)))))
         <-> send_midi_now (now (sample_tick 1)) 0 = true /\ present ch = true)
        /\ (forall v : Z,
               In [176; ch_cc ch; v]%Z
                  (midi_messages (trace (iteration shipped sample_out 0 (sample_tick 1)))) ->
               exists a b : Point,
                 ch_p1 ch = Some a /\ ch_p2 ch = Some b
                 /\ v = cc_value shipped a b)
        /\ (forall a b : Point,
               ch_p1 ch = Some a -> ch_p2 ch = Some b ->
               In (CvLine a b (ch_color ch) 2)
                  (trace (iteration shipped sample_out 0 (sample_tick 1)))
               /\ In (CvPutText {| cap_label := ch_label ch;
                                   cap_d := cc_value shipped a b;
                                   cap_a := angle_degrees a b |}
                        (caption_origin a b) (ch_color ch))
                     (trace (iteration shipped sample_out 0 (sample_tick 1)))).
Proof.
  apply (frame_emission sample_out 0 (sample_tick 1)
           (hand_events sample_left_hand ((100, 100)%Z, (100, 150)%Z))).
  - reflexivity.
  - apply sample_tick_extract.
Defined.

(** C5.  The emit decision of a frame is one boolean, a function of the
    clock and of the time of the last emission only.  When it is false no
    channel sends; when it is true every channel whose two endpoints are
    present sends, in the order of the table; and the time of the last
    emission becomes the time of this frame exactly when it is true,
    whether or not any channel had both endpoints. *)
Theorem frame_gate_shared (out : MidiOut) (last : R) (t : Tick)
    (trE : list Event) (coords : gmap string (gmap string (option Point))) :
  ret t = true ->
  extract (frame_w t) (frame_h t) (results t) = (trE, inr coords) ->
  exists (gate : bool) (lt li rt ri : option Point),
    gate = send_midi_now (now t) last
    /\ coords = coords_of lt li rt ri
    /\ midi_messages (trace (iteration shipped out last t))
       = flat_map (fun ch => if gate then cc_message shipped ch else [])
           (channels lt li rt ri)
    /\ (gate = false -> midi_messages (trace (iteration shipped out last t)) = [])
    /\ (gate = true ->
        Forall (fun ch => present ch = true) (channels lt li rt ri) ->
        exists v1 v2 v3 v4 : Z,
          midi_messages (trace (iteration shipped out last t))
          = [ [176; CC_LEFT_HAND; v1]; [176; CC_RIGHT_HAND; v2];
              [176; CC_THUMB_TO_THUMB; v3]; [176; CC_INDEX_TO_INDEX; v4] ]%Z)
    /\ outcome (iteration shipped out last t)
       = inr (flow_of (key t), if gate then now t else last).
Proof.
  intros Hret Hex.
  destruct (extract_shape _ _ _ _ _ Hex) as (lt & li & rt & ri & ->).
  exists (send_midi_now (now t) last), lt, li, rt, ri.
  pose proof (iteration_events shipped out last t trE lt li rt ri
                shipped_valid Hret Hex) as Hit.
  pose proof (iteration_midi shipped out last t trE lt li rt ri
                shipped_valid Hret Hex) as Hmidi.
  repeat split.
  - rewrite Hmidi. destruct (send_midi_now (now t) last); reflexivity.
  - intros Hgate. rewrite Hmidi, Hgate. reflexivity.
  - intros Hgate Hall. rewrite Hmidi, Hgate.
    unfold channels in *.
    repeat match goal with
    | H : Forall _ (_ :: _) |- _ => apply Forall_cons in H as [? H]
    end.
    unfold present in *. simpl in *.
    destruct lt, li, rt, ri; try discriminate.
    simpl. eauto.
  - rewrite Hit. reflexivity.
Qed.

Lemma frame_gate_shared_witness :
  exists (gate : bool) (lt li rt ri : option Point),
    gate = send_midi_now (now (sample_tick 1)) 0
    /\ coords_of (Some (100, 100)%Z) (Some (100, 150)%Z) None None
       = coords_of lt li rt ri
    /\ midi_messages (trace (iteration shipped sample_out 0 (sample_tick 1)))
       = flat_map (fun ch => if gate then cc_message shipped ch else [])
           (channels lt li rt ri)
    /\ (gate = false ->
        midi_messages (trace (iteration shipped sample_out 0 (sample_tick 1))) = [])
    /\ (gate = true ->
        Forall (fun ch => present ch = true) (channels lt li rt ri) ->
        exists v1 v2 v3 v4 : Z,
          midi_messages (trace (iteration shipped sample_out 0 (sample_tick 1)))
          = [ [176; CC_LEFT_HAND; v1]; [176; CC_RIGHT_HAND; v2];
              [176; CC_THUMB_TO_THUMB; v3]; [176; CC_INDEX_TO_INDEX; v4] ]%Z)
    /\ outcome (iteration shipped sample_out 0 (sample_tick 1))
       = inr (flow_of (key (sample_tick 1)),
              if gate then now (sample_tick 1) else 0).
Proof.
  apply (frame_gate_shared sample_out 0 (sample_tick 1)
           (hand_events sample_left_hand ((100, 100)%Z, (100, 150)%Z))).
  - reflexivity.
  - apply sample_tick_extract.
Defined.

(** ** The angle function *)

Lemma hypotenuse_factor (x y : R) :
  x <> 0 -> sqrt (x ^ 2 + y ^ 2) = Rabs x * sqrt (1 + (y / x)²).
Proof.
  intros Hx.
  replace (x ^ 2 + y ^ 2) with (x² * (1 + (y / x)²))
    by (unfold Rsqr; field; exact Hx).
  rewrite sqrt_mult.
  - rewrite sqrt_Rsqr_abs. reflexivity.
  - apply Rle_0_sqr.
  - pose proof (Rle_0_sqr (y / x)). lra.
Qed.

(** [Py.atan2 y x] is the polar angle of the point [(x, y)]. *)
Lemma atan2_polar (x y : R) :
  x <> 0 \/ y <> 0 ->
  x = sqrt (x ^ 2 + y ^ 2) * cos (Py.atan2 y x)
  /\ y = sqrt (x ^ 2 + y ^ 2) * sin (Py.atan2 y x).
Proof.
  intros Hxy. unfold Py.atan2.
  assert (forall q, 0 < sqrt (1 + q²)) as Hs.
  { intros q. apply sqrt_lt_R0. pose proof (Rle_0_sqr q). lra. }
  destruct (decide (0 < x)) as [Hx|Hx].
  - rewrite hypotenuse_factor by lra. rewrite Rabs_pos_eq by lra.
    rewrite cos_atan, sin_atan. pose proof (Hs (y / x)).
    split; field; repeat split; lra.
  - destruct (decide (x < 0)) as [Hx'|Hx'].
    + rewrite hypotenuse_factor by lra. rewrite Rabs_left by lra.
      pose proof (Hs (y / x)).
      destruct (decide (y < 0)).
      * rewrite cos_minus, sin_minus, cos_PI, sin_PI, cos_atan, sin_atan.
        split; field; repeat split; lra.
      * rewrite neg_cos, neg_sin, cos_atan, sin_atan.
        split; field; repeat split; lra.
    + assert (x = 0) as -> by lra.
      replace (0 ^ 2 + y ^ 2) with (y²) by (unfold Rsqr; ring).
      rewrite sqrt_Rsqr_abs.
      destruct (decide (0 < y)); [|destruct (decide (y < 0))].
      * rewrite cos_PI2, sin_PI2, Rabs_pos_eq by lra. lra.
      * rewrite cos_neg, sin_neg, cos_PI2, sin_PI2, Rabs_left by lra. lra.
      * destruct Hxy; lra.
Qed.

(** ** The measurement of a pair *)

Lemma draw_line_info_measure (p1 p2 : option Point) (lbl : string)
    (col : Color) (mo : option MidiOut) (cco : option Z) :
  outcome (draw_line_info shipped p1 p2 lbl col mo cco) = inr (measure p1 p2).
Proof.
  destruct p1 as [a|]; [destruct p2 as [b|]|].
  - rewrite draw_line_info_present by exact shipped_valid. reflexivity.
  - rewrite draw_line_info_absent by (right; reflexivity). reflexivity.
  - rewrite draw_line_info_absent by (left; reflexivity). reflexivity.
Qed.


(** ** The end-to-end scenario *)

Lemma scenario_distance : distance (100, 100)%Z (100, 150)%Z = 50.
Proof.
  unfold distance. simpl fst. simpl snd.
  replace ((100 - 100) ^ 2 + (150 - 100) ^ 2) with (50 * 50) by ring.
  apply sqrt_square. lra.
Qed.

Lemma scenario_angle : angle_degrees (100, 100)%Z (100, 150)%Z = 90.
Proof.
  unfold angle_degrees, Py.atan2. simpl fst. simpl snd.
  destruct (decide (0 < 100 - 100)) as [H|_]; [lra|].
  destruct (decide (100 - 100 < 0)) as [H|_]; [lra|].
  destruct (decide (0 < 150 - 100)) as [_|H]; [|lra].
  field. apply PI_neq0.
Qed.

Lemma scenario_cc_value : cc_value shipped (100, 100)%Z (100, 150)%Z = 10%Z.
Proof.
  unfold cc_value. rewrite scenario_distance. unfold toCC_spec. simpl.
  assert (clamp 50 20 400 = 50) as ->.
  { unfold clamp, Rmax, Rmin.
    destruct (Rle_dec 400 50), (Rle_dec 20 50); lra. }
  apply Zfloor_eq. lra.
Qed.

Lemma scenario_caption_origin :
  caption_origin (100, 100)%Z (100, 150)%Z = (100, 115)%Z.
Proof.
  unfold caption_origin. simpl fst. simpl snd.
  change (100 + 100)%Z with 200%Z. change (100 + 150)%Z with 250%Z.
  replace (200 / 2) with (IZR 100) by lra.
  replace (250 / 2) with (IZR 125) by lra.
  rewrite !py_int_IZR. reflexivity.
Qed.

(** C7.  A frame with one hand, labelled [Left], whose thumb tip is at
    pixel (100, 100) and whose index tip is at (100, 150), under the range
    20 to 400: the left-hand pair measures distance 50 and angle 90
    degrees, the other three pairs measure nothing; the controller value
    is 10, which is also the nearest integer to (50-20)/(400-20)*127; and
    the only message the frame can send is controller 20 with value 10,
    sent when the gate is open. *)
Theorem scenario_left_hand_only (out : MidiOut) (last : R) (t : Tick)
    (hand : list Landmark * list Classification) :
  ret t = true ->
  hands_of (results t) = [hand] ->
  hand_view (frame_w t) (frame_h t) hand
  = Some ("Left", ((100, 100)%Z, (100, 150)%Z)) ->
  MIN_DIST_PX shipped = 20 /\ MAX_DIST_PX shipped = 400
  /\ extract (frame_w t) (frame_h t) (results t)
     = (hand_events hand ((100, 100)%Z, (100, 150)%Z),
        inr (coords_of (Some (100, 100)%Z) (Some (100, 150)%Z) None None))
  /\ outcome (measure_and_send shipped out last
                (coords_of (Some (100, 100)%Z) (Some (100, 150)%Z) None None)
                (now t))
     = inr ([Some (50, 90); None; None; None],
            if send_midi_now (now t) last then now t else last)
  /\ normalize_to_cc 50 20 400 = inr 10%Z
  /\ Rabs ((50 - 20) / (400 - 20) * 127 - 10) < 1 / 2
  /\ trace (iteration shipped out last t)
     = hand_events hand ((100, 100)%Z, (100, 150)%Z)
       ++ [ CvLine (100, 100)%Z (100, 150)%Z (255, 0, 0)%Z 2;
            CvPutText {| cap_label := "L T-I"; cap_d := 10; cap_a := 90 |}
              (100, 115)%Z (255, 0, 0)%Z ]
       ++ (if send_midi_now (now t) last
           then [SendMessage out [176; 20; 10]%Z] else [])
       ++ [ImShow]
  /\ midi_messages (trace (iteration shipped out last t))
     = if send_midi_now (now t) last then [[176; 20; 10]%Z] else [].
Proof.
  intros Hret Hhands Hview.
  assert (extract (frame_w t) (frame_h t) (results t)
          = (hand_events hand ((100, 100)%Z, (100, 150)%Z),
             inr (coords_of (Some (100, 100)%Z) (Some (100, 150)%Z) None None)))
    as Hex.
  { rewrite extract_hands_of, Hhands, for_each_cons.
    change fresh_coords with (coords_of None None None None).
    rewrite (hand_step_view _ _ _ _ _ _ _ _ _ Hview). reflexivity. }
  assert (normalize_to_cc 50 20 400 = inr 10%Z) as Hcc.
  { rewrite normalize_to_cc_toCC by lra.
    pose proof scenario_cc_value as Hv. unfold cc_value in Hv.
    rewrite scenario_distance in Hv. simpl in Hv. rewrite Hv. reflexivity. }
  split; [reflexivity|]. split; [reflexivity|]. split; [exact Hex|].
  split.
  { rewrite measure_and_send_events by exact shipped_valid.
    unfold outcome. simpl.
    rewrite scenario_distance, scenario_angle. reflexivity. }
  split; [exact Hcc|].
  split.
  { apply Rabs_def1; lra. }
  split.
  - rewrite (iteration_events shipped out last t _ _ _ _ _ shipped_valid Hret Hex).
    unfold trace, channels, channel_events, overlay_events, cc_message.
    simpl.
    rewrite scenario_cc_value, scenario_angle, scenario_caption_origin.
    destruct (send_midi_now (now t) last); reflexivity.
  - rewrite (iteration_midi shipped out last t _ _ _ _ _ shipped_valid Hret Hex).
    unfold channels, cc_message. simpl. rewrite scenario_cc_value.
    reflexivity.
Qed.

Lemma scenario_left_hand_only_witness :
  midi_messages (trace (iteration shipped sample_out 0 (sample_tick 1)))
  = if send_midi_now (now (sample_tick 1)) 0 then [[176; 20; 10]%Z] else [].
Proof.
  apply (scenario_left_hand_only sample_out 0 (sample_tick 1) sample_left_hand).
  - reflexivity.
  - reflexivity.
  - apply sample_left_hand_view.
Defined.

(** ** The rate gate *)

Lemma send_midi_now_true (now last : R) :
  send_midi_now now last = true <-> now - last > send_interval.
Proof.
  unfold send_midi_now. rewrite bool_decide_eq_true. unfold Rgt. tauto.
Qed.

Lemma send_midi_now_false (now last : R) :
  send_midi_now now last = false <-> now - last <= send_interval.
Proof.
  unfold send_midi_now. rewrite bool_decide_eq_false. split; intros H; lra.
Qed.

Lemma gate_open (now last : R) :
  now - last > 1 / 30 -> send_midi_now now last = true.
Proof. intros H. apply send_midi_now_true. unfold send_interval. lra. Qed.

Lemma gate_closed (now last : R) :
  now - last <= 1 / 30 -> send_midi_now now last = false.
Proof. intros H. apply send_midi_now_false. unfold send_interval. lra. Qed.

Lemma gate_decisions_zero_short : gate_decisions 0 [0; 0.02] = [false; false].
Proof.
  simpl. rewrite (gate_closed 0 0) by lra.
  rewrite (gate_closed 0.02 0) by lra. reflexivity.
Qed.

Lemma gate_decisions_zero_long : gate_decisions 0 [0; 0.05] = [false; true].
Proof.
  simpl. rewrite (gate_closed 0 0) by lra.
  rewrite (gate_open 0.05 0) by lra. reflexivity.
Qed.

(** [run] as its three parts: the start, the loop, the cleanup. *)
Lemma startup_returns (ports : list string) :
  exists (tr : list Event) (out : MidiOut),
    startup ports = (tr, inr (out, 0)) /\ midi_messages tr = [].
Proof.
  unfold startup, find_midi_port.
  destruct (scan_ports MIDI_PORT_NAME_SUBSTRING 0 ports) as [[i name]|];
    eexists; eexists; split; reflexivity.
Qed.

Lemma run_parts (cfg : Range) (ports : list string) (ticks : list Tick) :
  exists (tr : list Event) (out : MidiOut),
    startup ports = (tr, inr (out, 0))
    /\ midi_messages tr = []
    /\ run cfg ports ticks
       = (tr ++ trace (loop cfg out 0 ticks)
             ++ [CapRelease; DestroyAllWindows; HandsClose],
          match outcome (loop cfg out 0 ticks) with
          | inl e => inl e
          | inr _ => inr tt
          end).
Proof.
  destruct (startup_returns ports) as (tr & out & Hs & Hm).
  exists tr, out. split; [exact Hs|]. split; [exact Hm|].
  unfold run. rewrite Hs, bind_value. cbv beta. cbn [fst snd].
  destruct (loop cfg out 0 ticks) as [trL [e|r]]; simpl;
    rewrite ?app_nil_r; reflexivity.
Qed.

Lemma run_midi (cfg : Range) (ports : list string) (ticks : list Tick) :
  exists out : MidiOut,
    outcome (startup ports) = inr (out, 0)
    /\ midi_messages (trace (run cfg ports ticks))
       = midi_messages (trace (loop cfg out 0 ticks)).
Proof.
  destruct (run_parts cfg ports ticks) as (tr & out & Hs & Hm & ->).
  exists out. split; [rewrite Hs; reflexivity|].
  unfold trace at 1. cbn [fst].
  rewrite !midi_messages_app, Hm. simpl. apply app_nil_r.
Qed.

(** Over frames that all show the sample hand, the loop sends one message
    per true decision of the gate. *)
Lemma loop_sample_midi (out : MidiOut) (times : list R) :
  forall last : R,
    midi_messages (trace (loop shipped out last (sample_tick <$> times)))
    = flat_map (fun b : bool => if b then [[176; 20; 10]%Z] else [])
        (gate_decisions last times).
Proof.
  induction times as [|now rest IH]; intros last; [reflexivity|].
  simpl fmap. simpl gate_decisions. simpl flat_map.
  pose proof (sample_tick_extract now) as Hex.
  pose proof (iteration_midi shipped out last (sample_tick now) _ _ _ _ _
                shipped_valid eq_refl Hex) as Hmidi.
  unfold channels, cc_message in Hmidi. simpl in Hmidi.
  rewrite scenario_cc_value in Hmidi.
  pose proof (iteration_events shipped out last (sample_tick now) _ _ _ _ _
                shipped_valid eq_refl Hex) as Hit.
  simpl loop. rewrite Hit in *. rewrite bind_value. cbv beta. cbn [fst snd].
  change (flow_of (key (sample_tick now))) with Continue. cbv iota.
  unfold trace in *. cbn [fst] in *.
  rewrite midi_messages_app, Hmidi. f_equal.
  apply (IH (if send_midi_now (now) last then now else last)).
Qed.

Lemma run_sample_midi (ports : list string) (times : list R) :
  midi_messages (trace (run shipped ports (sample_tick <$> times)))
  = flat_map (fun b : bool => if b then [[176; 20; 10]%Z] else [])
      (gate_decisions 0 times).
Proof.
  destruct (run_midi shipped ports (sample_tick <$> times)) as (out & _ & ->).
  apply loop_sample_midi.
Qed.

(** C4, as stated, fails.  The first frame of [run] is gated with
    [last_send = 0]: at time 0 the gate is closed, so the decisions at
    times 0 and 0.02 are (false, false), not (true, false), and at times 0
    and 0.05 they are (false, true), not (true, true).  Run on the sample
    frames, the program sends nothing in the first case and one message,
    that of the second frame, in the other. *)
Lemma rate_gate_at_time_zero :
  gate_decisions 0 [0; 0.02] = [false; false]
  /\ gate_decisions 0 [0; 0.02] <> [true; false]
  /\ gate_decisions 0 [0; 0.05] = [false; true]
  /\ gate_decisions 0 [0; 0.05] <> [true; true]
  /\ midi_messages
       (trace (run shipped [] [sample_tick 0; sample_tick 0.02])) = []
  /\ midi_messages
       (trace (run shipped [] [sample_tick 0; sample_tick 0.05]))
     = [[176; 20; 10]%Z].
Proof.
  split; [exact gate_decisions_zero_short|].
  split; [rewrite gate_decisions_zero_short; discriminate|].
  split; [exact gate_decisions_zero_long|].
  split; [rewrite gate_decisions_zero_long; discriminate|].
  split.
  - change [sample_tick 0; sample_tick 0.02] with (sample_tick <$> [0; 0.02]).
    rewrite run_sample_midi, gate_decisions_zero_short. reflexivity.
  - change [sample_tick 0; sample_tick 0.05] with (sample_tick <$> [0; 0.05]).
    rewrite run_sample_midi, gate_decisions_zero_long. reflexivity.
Qed.

(** C4, amended.  The interval is 1/30 s and a frame may emit exactly when
    [now - last_send > 1/30], strictly.  [run] starts with [last_send = 0],
    so a first call at time 0 does not emit: calls at 0 and 0.02 give
    (false, false), calls at 0 and 0.05 give (false, true).  When the first
    call comes more than 1/30 s after [last_send], calls at [t0] and
    [t0 + 0.02] give (true, false) and calls at [t0] and [t0 + 0.05] give
    (true, true). *)
Theorem rate_gate_strict :
  send_interval = 1 / 30
  /\ (forall now last : R,
         send_midi_now now last = true <-> now - last > send_interval)
  /\ (forall now last : R,
         now - last = send_interval -> send_midi_now now last = false)
  /\ gate_decisions 0 [0; 0.02] = [false; false]
  /\ gate_decisions 0 [0; 0.05] = [false; true]
  /\ (forall t0 last : R,
         t0 - last > 1 / 30 ->
         gate_decisions last [t0; t0 + 0.02] = [true; false]
         /\ gate_decisions last [t0; t0 + 0.05] = [true; true])
  /\ (forall (ports : list string) (times : list R),
         midi_messages (trace (run shipped ports (sample_tick <$> times)))
         = flat_map (fun b : bool => if b then [[176; 20; 10]%Z] else [])
             (gate_decisions 0 times)).
Proof.
  split; [reflexivity|].
  split; [exact send_midi_now_true|].
  split; [intros now last H; apply send_midi_now_false; lra|].
  split; [exact gate_decisions_zero_short|].
  split; [exact gate_decisions_zero_long|].
  split; [|exact run_sample_midi].
  intros t0 last Ht0. simpl. rewrite (gate_open t0 last) by exact Ht0. split.
  - rewrite (gate_closed (t0 + 0.02) t0) by lra. reflexivity.
  - rewrite (gate_open (t0 + 0.05) t0) by lra. reflexivity.
Qed.

(** ** A range that is not valid *)








(** ** The scenarios in binary64

    On the inputs of the scenarios the rounded arithmetic gives the values
    the exact arithmetic gives. *)

(** ** Squared distances: the exact value as an integer function *)

Lemma sqrt_IZR_bounds (m : Z) :
  (0 <= m)%Z -> IZR (Z.sqrt m) <= sqrt (IZR m) < IZR (Z.sqrt m) + 1.
Proof.
  intros Hm. pose proof (Z.sqrt_spec m Hm) as [Hlo Hhi].
  pose proof (Z.sqrt_nonneg m) as Hs.
  assert (0 <= IZR (Z.sqrt m)) as Hs' by (apply IZR_le; exact Hs).
  split.
  - rewrite <- (sqrt_square (IZR (Z.sqrt m))) at 1 by exact Hs'.
    apply sqrt_le_1_alt. rewrite <- mult_IZR. apply IZR_le. exact Hlo.
  - rewrite <- (sqrt_square (IZR (Z.sqrt m) + 1)) by lra.
    apply sqrt_lt_1_alt. split.
    + apply IZR_le. exact Hm.
    + replace (IZR (Z.sqrt m) + 1) with (IZR (Z.succ (Z.sqrt m)))
        by (rewrite succ_IZR; reflexivity).
      rewrite <- mult_IZR. apply IZR_lt. exact Hhi.
Qed.

Lemma clamp_inside (d lo hi : R) : lo <= d <= hi -> clamp d lo hi = d.
Proof.
  intros [H1 H2]. unfold clamp, Rmax, Rmin.
  destruct (Rle_dec hi d); destruct (Rle_dec lo _); lra.
Qed.

Lemma exact_cc_of_squared (n : Z) :
  (0 <= n)%Z -> toCC_spec (sqrt (IZR n)) 20 400 = cc_of_squared n.
Proof.
  intros Hn. unfold cc_of_squared.
  assert (sqrt 400 = 20) as H20
    by (replace 400 with (20 * 20) by lra; apply sqrt_square; lra).
  assert (sqrt 160000 = 400) as H400
    by (replace 160000 with (400 * 400) by lra; apply sqrt_square; lra).
  assert (0 <= IZR n) as Hn' by (apply IZR_le; exact Hn).
  destruct (n <? 400)%Z eqn:Hlow.
  - apply Z.ltb_lt in Hlow.
    assert (sqrt (IZR n) <= 20) as Hle.
    { rewrite <- H20. apply sqrt_le_1_alt, IZR_le. lia. }
    unfold toCC_spec. rewrite clamp_below by lra.
    apply Zfloor_eq. lra.
  - apply Z.ltb_ge in Hlow.
    assert (20 <= sqrt (IZR n)) as Hge.
    { rewrite <- H20. apply sqrt_le_1_alt, IZR_le. exact Hlow. }
    destruct (160000 <=? n)%Z eqn:Hhigh.
    + apply Z.leb_le in Hhigh.
      assert (400 <= sqrt (IZR n)) as Hge'.
      { rewrite <- H400. apply sqrt_le_1_alt, IZR_le. exact Hhigh. }
      unfold toCC_spec. rewrite clamp_above by lra.
      apply Zfloor_eq. lra.
    + apply Z.leb_gt in Hhigh.
      assert (sqrt (IZR n) <= 400) as Hle.
      { rewrite <- H400. apply sqrt_le_1_alt, IZR_le. lia. }
      unfold toCC_spec. rewrite clamp_inside by lra.
      assert (sqrt (IZR (16129 * n)) = 127 * sqrt (IZR n)) as Hscale.
      { rewrite mult_IZR, sqrt_mult by lra.
        replace 16129 with (127 * 127) by lra.
        rewrite sqrt_square by lra. reflexivity. }
      pose proof (sqrt_IZR_bounds (16129 * n) ltac:(lia)) as [Hs1 Hs2].
      rewrite Hscale in Hs1, Hs2.
      set (s := Z.sqrt (16129 * n)) in *.
      assert (2540 <= s)%Z as Hs.
      { unfold s. change 2540%Z with (Z.sqrt (2540 * 2540)).
        apply Z.sqrt_le_mono. lia. }
      set (k := ((s - 2540) / 380)%Z).
      assert (380 * k <= s - 2540 < 380 * k + 380)%Z as [Hk1 Hk2].
      { unfold k. Z.to_euclidean_division_equations. lia. }
      apply Zfloor_eq.
      apply IZR_le in Hk1. rewrite mult_IZR, minus_IZR in Hk1.
      assert (s + 1 <= 380 * k + 2920)%Z as Hk3 by lia.
      apply IZR_le in Hk3. rewrite !plus_IZR, mult_IZR in Hk3.
      split; lra.
Qed.

Lemma check_iter (P : Z -> bool) (start : Z) (count : positive) :
  fst (Pos.iter (check_step P) (start, true) count) = (start + Z.pos count)%Z
  /\ (snd (Pos.iter (check_step P) (start, true) count) = true ->
      forall n : Z, (start <= n < start + Z.pos count)%Z -> P n = true).
Proof.
  induction count as [|p [IHfst IHsnd]] using Pos.peano_ind.
  - simpl. split; [reflexivity|].
    intros HP n Hn. assert (n = start) as -> by lia. exact HP.
  - rewrite Pos.iter_succ. unfold check_step at 1 3. simpl fst. simpl snd.
    rewrite IHfst. split; [lia|].
    intros Hall n Hn. apply andb_prop in Hall as [Hprev Hlast].
    destruct (Z.eq_dec n (start + Z.pos p)%Z) as [->|Hne].
    + exact Hlast.
    + apply IHsnd; [exact Hprev|lia].
Qed.

Lemma holds_from_spec (P : Z -> bool) (start : Z) (count : positive) :
  holds_from P start count = true ->
  forall n : Z, (start <= n < start + Z.pos count)%Z -> P n = true.
Proof. apply check_iter. Qed.

Section Binary64Scenarios.

Import Floats.
#[local] Set Warnings "-inexact-float".

Example binary64_scenario_distance :
  Binary64.distance (100, 100)%Z (100, 150)%Z = 50%float.
Proof. vm_compute. reflexivity. Qed.

Example binary64_scenario_cc :
  Binary64.normalize_to_cc 50 20 400 = inr 10%Z.
Proof. vm_compute. reflexivity. Qed.

Example binary64_range_ends :
  Binary64.normalize_to_cc 20 20 400 = inr 0%Z
  /\ Binary64.normalize_to_cc 400 20 400 = inr 127%Z
  /\ Binary64.normalize_to_cc 0 20 400 = inr 0%Z
  /\ Binary64.normalize_to_cc 1000 20 400 = inr 127%Z.
Proof. vm_compute. repeat split; reflexivity. Qed.

Example binary64_degenerate_range :
  Binary64.normalize_to_cc 50 20 20 = inl Py.ZeroDivisionError.
Proof. vm_compute. reflexivity. Qed.

Example binary64_sample_pixels :
  Binary64.pixel_coordinate 0.5 200 = inr 100%Z
  /\ Binary64.pixel_coordinate 0.75 200 = inr 150%Z.
Proof. vm_compute. split; reflexivity. Qed.

Example binary64_gate :
  Binary64.send_midi_now 0 0 = false
  /\ Binary64.send_midi_now 0.02 0 = false
  /\ Binary64.send_midi_now 0.05 0 = true.
Proof. vm_compute. repeat split; reflexivity. Qed.

End Binary64Scenarios.

(** ** Binary64 and the exact value on squared distances *)

(** The conversion of a small non-negative integer is the primitive one. *)
Lemma of_int_uint63 (n : Z) :
  (0 <= n < 2 ^ 63)%Z ->
  Binary64.of_int n = PrimFloat.of_uint63 (Uint63.of_Z n).
Proof.
  intros Hn. unfold Binary64.of_int.
  rewrite <- (FloatAxioms.SF2Prim_Prim2SF (PrimFloat.of_uint63 (Uint63.of_Z n))).
  rewrite FloatAxioms.of_uint63_spec, Uint63.of_Z_spec, Z.mod_small; [reflexivity|].
  exact Hn.
Qed.

Lemma binary64_agrees_in_range : holds_from Binary64.agrees 0 160000 = true.
Proof. vm_cast_no_check (eq_refl true). Qed.

Lemma binary64_beyond_range : holds_from Binary64.beyond 160000 4840000 = true.
Proof. vm_cast_no_check (eq_refl true). Qed.

(** For every squared pixel distance below 5000000 (a distance of some
    2236 pixels), the program in binary64 computes the controller value
    that the exact reading gives. *)
Theorem binary64_cc_exact (n : Z) :
  (0 <= n < 5000000)%Z ->
  Binary64.normalize_to_cc (PrimFloat.sqrt (Binary64.of_int n))
    Binary64.MIN_DIST_PX Binary64.MAX_DIST_PX
  = normalize_to_cc (sqrt (IZR n)) 20 400.
Proof.
  intros Hn.
  rewrite normalize_to_cc_toCC by lra.
  rewrite exact_cc_of_squared by lia.
  rewrite of_int_uint63 by lia.
  destruct (Z_lt_dec n 160000) as [Hlow|Hhigh].
  - pose proof (holds_from_spec _ _ _ binary64_agrees_in_range n ltac:(lia))
      as Hok.
    unfold Binary64.agrees in Hok.
    destruct (Binary64.normalize_to_cc _ _ _) as [e|v]; [discriminate|].
    apply Z.eqb_eq in Hok. rewrite Hok. reflexivity.
  - pose proof (holds_from_spec _ _ _ binary64_beyond_range n ltac:(lia))
      as Hok.
    unfold Binary64.beyond in Hok. apply negb_true_iff in Hok.
    unfold cc_of_squared.
    destruct (n <? 400)%Z eqn:E1; [apply Z.ltb_lt in E1; lia|].
    destruct (160000 <=? n)%Z eqn:E2; [|apply Z.leb_gt in E2; lia].
    unfold Binary64.normalize_to_cc, Binary64.min. rewrite Hok.
    vm_compute. reflexivity.
Qed.

(** X24.  For two pixels less than the square root of 5,000,000 apart
    (about 2236 pixels), the normalizer run in binary64 on the binary64
    distance returns, without raising, the controller value that the exact
    reading of the arithmetic gives for the range of the source. *)
Corollary binary64_cc_value (a b : Point) :
  ((fst b - fst a) ^ 2 + (snd b - snd a) ^ 2 < 5000000)%Z ->
  Binary64.normalize_to_cc (Binary64.distance a b)
    Binary64.MIN_DIST_PX Binary64.MAX_DIST_PX
  = inr (cc_value shipped a b).
Proof.
  intros Hn. unfold Binary64.distance.
  rewrite binary64_cc_exact by nia.
  destruct a as [x1 y1], b as [x2 y2]. simpl fst. simpl snd.
  rewrite distance_of_ints.
  apply (normalize_to_cc_toCC _ 20 400). lra.
Qed.

Lemma binary64_cc_value_witness :
  Binary64.normalize_to_cc (Binary64.distance (100, 100)%Z (103, 96)%Z)
    Binary64.MIN_DIST_PX Binary64.MAX_DIST_PX
  = inr (cc_value shipped (100, 100)%Z (103, 96)%Z).
Proof.
  apply (binary64_cc_value (100, 100)%Z (103, 96)%Z). simpl. lia.
Defined.

(** ** The MIDI port *)

Lemma prefix_append (s1 s2 : string) :
  String.prefix s1 s2 = true <-> exists post : string, s2 = String.append s1 post.
Proof.
  revert s2. induction s1 as [|a s1 IH]; intros s2; simpl.
  - split; [intros _; exists s2; reflexivity|].
    intros _. destruct s2; reflexivity.
  - destruct s2 as [|b s2]; simpl.
    + split; [discriminate|]. intros (post & Hpost). discriminate Hpost.
    + destruct (Ascii.ascii_dec a b) as [->|Hne].
      * rewrite IH. split.
        -- intros (post & ->). exists post. reflexivity.
        -- intros (post & Hpost). injection Hpost as ->. exists post. reflexivity.
      * split; [discriminate|]. intros (post & Hpost).
        injection Hpost as Hab _. congruence.
Qed.

Lemma contains_empty (sub : string) :
  contains sub EmptyString = true <-> sub = EmptyString.
Proof.
  unfold contains. simpl. destruct sub; split; congruence.
Qed.

Lemma contains_cons (sub : string) (b : Ascii.ascii) (s : string) :
  contains sub (String b s)
  = String.prefix sub (String b s) || contains sub s.
Proof.
  unfold contains.
  change (String.index 0 sub (String b s))
    with (if String.prefix sub (String b s) then Some 0%nat
          else match String.index 0 sub s with
               | Some n => Some (S n)
               | None => None
               end).
  destruct (String.prefix sub (String b s)); [reflexivity|].
  simpl. destruct (String.index 0 sub s); reflexivity.
Qed.

Lemma contains_iff (sub name : string) :
  contains sub name = true
  <-> exists pre post : string,
        name = String.append pre (String.append sub post).
Proof.
  induction name as [|b s IH].
  - rewrite contains_empty. split.
    + intros ->. exists EmptyString, EmptyString. reflexivity.
    + intros (pre & post & H). destruct pre; [|discriminate].
      destruct sub; [reflexivity|discriminate].
  - rewrite contains_cons, orb_true_iff, prefix_append, IH. split.
    + intros [(post & ->) | (pre & post & ->)].
      * exists EmptyString, post. reflexivity.
      * exists (String b pre), post. reflexivity.
    + intros (pre & post & H). destruct pre as [|c pre].
      * left. exists post. exact H.
      * right. injection H as _ ->. exists pre, post. reflexivity.
Qed.

Lemma scan_ports_found (sub : string) (before after : list string)
    (name : string) (i : nat) :
  Forall (fun p => contains sub p = false) before ->
  contains sub name = true ->
  scan_ports sub i (before ++ name :: after)
  = Some ((i + length before)%nat, name).
Proof.
  intros Hbefore Hname. revert i.
  induction Hbefore as [|p before Hp _ IH]; intros i; simpl.
  - rewrite Hname. f_equal. f_equal. lia.
  - rewrite Hp, IH. f_equal. f_equal. lia.
Qed.

Lemma scan_ports_none (sub : string) (ports : list string) (i : nat) :
  Forall (fun p => contains sub p = false) ports ->
  scan_ports sub i ports = None.
Proof.
  intros Hall. revert i. induction Hall as [|p ports Hp _ IH]; intros i; simpl.
  - reflexivity.
  - rewrite Hp. apply IH.
Qed.

Lemma not_contains (sub name : string) :
  ~ (exists pre post : string,
        name = String.append pre (String.append sub post)) ->
  contains sub name = false.
Proof.
  intros Hno. destruct (contains sub name) eqn:E; [|reflexivity].
  exfalso. apply Hno, contains_iff, E.
Qed.

(** X1.  When some port name contains the substring, [find_midi_port]
    opens the first such port, by its index in the list, prints its name
    and returns it; no virtual port is opened. *)
Theorem find_midi_port_first_match (sub : string)
    (before after : list string) (name pre post : string) :
  Forall (fun p => ~ exists pre' post' : string,
                       p = String.append pre' (String.append sub post'))
    before ->
  name = String.append pre (String.append sub post) ->
  find_midi_port sub (before ++ name :: after)
  = ([ StdoutPorts (before ++ name :: after);
       OpenPort (length before);
       Stdout (String.append "Opened MIDI port: " name) ],
     inr (Port (length before))).
Proof.
  intros Hbefore Hname. unfold find_midi_port.
  rewrite (scan_ports_found sub before after name 0).
  - reflexivity.
  - eapply Forall_impl; [exact Hbefore|]. intros p. apply not_contains.
  - apply contains_iff. exists pre, post. exact Hname.
Qed.

Lemma find_midi_port_first_match_witness :
  find_midi_port "IAC" ["Bus 1"; "IAC Driver Bus 1"; "My IAC"]
  = ([ StdoutPorts ["Bus 1"; "IAC Driver Bus 1"; "My IAC"];
       OpenPort 1;
       Stdout "Opened MIDI port: IAC Driver Bus 1" ],
     inr (Port 1)).
Proof.
  apply (find_midi_port_first_match "IAC" ["Bus 1"] ["My IAC"]
           "IAC Driver Bus 1" "" " Driver Bus 1").
  - constructor; [|constructor].
    intros Hyes. apply contains_iff in Hyes. discriminate Hyes.
  - reflexivity.
Defined.

(** X2.  When no port name contains the substring, in particular when
    there is no port at all, [find_midi_port] opens the virtual port
    [PoseHandControl] and returns it; no listed port is opened. *)
Theorem find_midi_port_fallback (sub : string) (ports : list string) :
  Forall (fun p => ~ exists pre post : string,
                       p = String.append pre (String.append sub post))
    ports ->
  find_midi_port sub ports
  = ([ StdoutPorts ports;
       OpenVirtualPort "PoseHandControl";
       Stdout "Opened virtual MIDI port: PoseHandControl (no IAC found)" ],
     inr (VirtualPort "PoseHandControl")).
Proof.
  intros Hnone. unfold find_midi_port.
  rewrite (scan_ports_none sub ports 0).
  - reflexivity.
  - eapply Forall_impl; [exact Hnone|]. intros p. apply not_contains.
Qed.

Lemma find_midi_port_fallback_witness :
  find_midi_port "IAC" ["Bus 1"; "iac lower case"]
  = ([ StdoutPorts ["Bus 1"; "iac lower case"];
       OpenVirtualPort "PoseHandControl";
       Stdout "Opened virtual MIDI port: PoseHandControl (no IAC found)" ],
     inr (VirtualPort "PoseHandControl")).
Proof.
  apply (find_midi_port_fallback "IAC" ["Bus 1"; "iac lower case"]).
  repeat constructor; intros Hyes; apply contains_iff in Hyes;
    discriminate Hyes.
Defined.

(** ** The Control Change message *)

Lemma land_low_bits (a : Z) (n : Z) :
  (0 <= n)%Z -> Z.land a (Z.ones n) = (a mod 2 ^ n)%Z.
Proof. intros Hn. apply Z.land_ones, Hn. Qed.

Lemma status_byte (channel : Z) :
  Z.lor 176 (Z.land channel 15) = (176 + channel mod 16)%Z.
Proof.
  change 15%Z with (Z.ones 4). rewrite Z.land_ones by lia.
  change (2 ^ 4)%Z with 16%Z.
  pose proof (Z.mod_pos_bound channel 16 ltac:(lia)) as Hm.
  set (m := (channel mod 16)%Z) in *.
  assert (m = 0 \/ m = 1 \/ m = 2 \/ m = 3 \/ m = 4 \/ m = 5 \/ m = 6
          \/ m = 7 \/ m = 8 \/ m = 9 \/ m = 10 \/ m = 11 \/ m = 12
          \/ m = 13 \/ m = 14 \/ m = 15)%Z as Hcases by lia.
  repeat (destruct Hcases as [->|Hcases]; [reflexivity|]).
  rewrite Hcases. reflexivity.
Qed.

Lemma land_127_mod (c : Z) : Z.land c 127 = (c mod 128)%Z.
Proof. change 127%Z with (Z.ones 7). apply Z.land_ones. lia. Qed.

Lemma clamp_byte (value : Z) :
  Z.max 0 (Z.min 127 value)
  = if (value <? 0)%Z then 0%Z
    else if (127 <? value)%Z then 127%Z else value.
Proof.
  destruct (value <? 0)%Z eqn:E1; [apply Z.ltb_lt in E1; lia|].
  apply Z.ltb_ge in E1.
  destruct (127 <? value)%Z eqn:E2;
    [apply Z.ltb_lt in E2 | apply Z.ltb_ge in E2]; lia.
Qed.

(** X3.  [send_cc] never raises and sends exactly one message of three
    bytes, whatever integers it is given: the status byte is 0xB0 plus the
    channel modulo 16, the controller number is taken modulo 128, and the
    value is clamped into 0..127.  Each byte is in the range of its
    kind. *)
Theorem send_cc_message (midi_out : MidiOut) (cc_number value channel : Z) :
  send_cc midi_out cc_number value channel
  = ([SendMessage midi_out
        [ (176 + channel mod 16)%Z;
          (cc_number mod 128)%Z;
          if (value <? 0)%Z then 0%Z
          else if (127 <? value)%Z then 127%Z else value ]],
     inr tt)
  /\ (176 <= 176 + channel mod 16 <= 191)%Z
  /\ (0 <= cc_number mod 128 <= 127)%Z
  /\ (0 <= (if (value <? 0)%Z then 0
            else if (127 <? value)%Z then 127 else value) <= 127)%Z.
Proof.
  split; [|split; [|split]].
  - unfold send_cc, emit.
    rewrite status_byte, land_127_mod, clamp_byte. reflexivity.
  - pose proof (Z.mod_pos_bound channel 16 ltac:(lia)). lia.
  - pose proof (Z.mod_pos_bound cc_number 128 ltac:(lia)). lia.
  - rewrite <- clamp_byte. lia.
Qed.

(** ** One pair: the overlay, the message, the measurement *)

Lemma py_int_half (z : Z) : Py.int (IZR z / 2) = Z.quot z 2.
Proof.
  pose proof (Z.quot_rem' z 2) as Hqr.
  assert ((0 <= z -> 0 <= Z.rem z 2 < 2) /\ (z < 0 -> -2 < Z.rem z 2 <= 0))%Z
    as [Hpos Hneg] by (Z.to_euclidean_division_equations; lia).
  set (q := Z.quot z 2) in *. set (r := Z.rem z 2) in *.
  assert (IZR z = 2 * IZR q + IZR r) as Hz.
  { rewrite Hqr, plus_IZR, mult_IZR. reflexivity. }
  unfold Py.int. destruct (decide (IZR z / 2 < 0)) as [Hlt|Hge].
  - assert (z < 0)%Z as Hz0 by (apply lt_IZR; lra).
    assert (-2 < IZR r <= 0) as Hr'.
    { split; [apply IZR_lt|apply IZR_le]; lia. }
    unfold Zceil. apply Z.opp_inj. rewrite Z.opp_involutive.
    apply Zfloor_eq. rewrite opp_IZR. lra.
  - assert (0 <= z)%Z as Hz0 by (apply le_IZR; lra).
    assert (0 <= IZR r < 2) as Hr'.
    { split; [apply IZR_le|apply IZR_lt]; lia. }
    apply Zfloor_eq. lra.
Qed.

(** X4.  For a range with [min <> max], everything [draw_line_info] does:
    with a point absent it draws nothing, sends nothing and returns
    nothing.  With both points it draws the line, then the caption (the
    label, the controller value and the angle) anchored at the midpoint of
    the segment, each coordinate halved with rounding toward zero, 10
    pixels up; it sends one message, carrying the value the caption shows
    and the controller number modulo 128, exactly when both the output and
    the controller number are given; and it returns distance and angle. *)
Theorem draw_line_info_effects (cfg : Range) (p1 p2 : option Point)
    (label_text : string) (color : Color) (midi_out : option MidiOut)
    (cc_number : option Z) :
  MIN_DIST_PX cfg <> MAX_DIST_PX cfg ->
  draw_line_info cfg p1 p2 label_text color midi_out cc_number
  = match p1, p2 with
    | Some (x1, y1), Some (x2, y2) =>
        ([ CvLine (x1, y1) (x2, y2) color 2;
           CvPutText {| cap_label := label_text;
                        cap_d := cc_value cfg (x1, y1) (x2, y2);
                        cap_a := angle_degrees (x1, y1) (x2, y2) |}
             (Z.quot (x1 + x2) 2, (Z.quot (y1 + y2) 2 - 10)%Z) color ]
         ++ match cc_number, midi_out with
            | Some c, Some out =>
                [SendMessage out
                   [176; c mod 128; cc_value cfg (x1, y1) (x2, y2)]%Z]
            | _, _ => []
            end,
         inr (Some (distance (x1, y1) (x2, y2),
                    angle_degrees (x1, y1) (x2, y2))))
    | _, _ => ([], inr None)
    end.
Proof.
  intros Hne. destruct p1 as [[x1 y1]|]; [destruct p2 as [[x2 y2]|]|].
  - rewrite draw_line_info_present by exact Hne.
    unfold caption_origin. simpl fst. simpl snd. rewrite !py_int_half.
    destruct cc_number as [c|], midi_out as [out|];
      rewrite ?land_127_mod; reflexivity.
  - apply draw_line_info_absent. right. reflexivity.
  - apply draw_line_info_absent. left. reflexivity.
Qed.

Lemma draw_line_info_effects_witness :
  draw_line_info shipped (Some (-3, 7)%Z) (Some (0, 10)%Z) "T-T"
    (0, 255, 255)%Z (Some (Port 0)) (Some 150%Z)
  = ([ CvLine (-3, 7)%Z (0, 10)%Z (0, 255, 255)%Z 2;
       CvPutText {| cap_label := "T-T";
                    cap_d := cc_value shipped (-3, 7)%Z (0, 10)%Z;
                    cap_a := angle_degrees (-3, 7)%Z (0, 10)%Z |}
         (-1, -2)%Z (0, 255, 255)%Z;
       SendMessage (Port 0)
         [176; 22; cc_value shipped (-3, 7)%Z (0, 10)%Z]%Z ],
     inr (Some (distance (-3, 7)%Z (0, 10)%Z,
                angle_degrees (-3, 7)%Z (0, 10)%Z))).
Proof.
  apply (draw_line_info_effects shipped (Some (-3, 7)%Z) (Some (0, 10)%Z)
           "T-T" (0, 255, 255)%Z (Some (Port 0)) (Some 150%Z)).
  simpl. lra.
Defined.

Lemma distance_sym (a b : Point) : distance a b = distance b a.
Proof. unfold distance. f_equal. ring. Qed.

Lemma atan2_reverse (y x : R) :
  x <> 0 \/ y <> 0 ->
  Py.atan2 (- y) (- x)
  = if decide (0 < Py.atan2 y x) then Py.atan2 y x - PI
    else Py.atan2 y x + PI.
Proof.
  intros Hxy. pose proof PI_RGT_0 as Hpi. pose proof PI2_RGT_0 as Hpi2.
  pose proof (atan_bound (y / x)) as Hb.
  assert (x <> 0 -> - y / - x = y / x) as Hq by (intros; field; assumption).
  assert (forall q, 0 < q -> 0 < atan q) as Hatan_pos.
  { intros q Hq0. rewrite <- atan_0. apply atan_increasing, Hq0. }
  assert (forall q, q < 0 -> atan q < 0) as Hatan_neg.
  { intros q Hq0. rewrite <- atan_0. apply atan_increasing, Hq0. }
  unfold Py.atan2.
  destruct (decide (0 < x)) as [Hx|Hx].
  - destruct (decide (0 < - x)); [lra|].
    destruct (decide (- x < 0)); [|lra].
    rewrite Hq by lra.
    assert (0 < / x) as Hinv by (apply Rinv_0_lt_compat, Hx).
    destruct (decide (- y < 0)) as [Hy|Hy].
    + assert (0 < atan (y / x)) by (apply Hatan_pos; unfold Rdiv; nra).
      destruct (decide (0 < atan (y / x))); [reflexivity|lra].
    + assert (atan (y / x) <= 0).
      { destruct (Req_dec y 0) as [->|Hy0].
        - unfold Rdiv. rewrite Rmult_0_l, atan_0. lra.
        - left. apply Hatan_neg. unfold Rdiv. nra. }
      destruct (decide (0 < atan (y / x))); [lra|reflexivity].
  - destruct (decide (x < 0)) as [Hx'|Hx'].
    + destruct (decide (0 < - x)); [|lra].
      rewrite Hq by lra.
      assert (/ x < 0) as Hinv by (apply Rinv_lt_0_compat, Hx').
      destruct (decide (y < 0)) as [Hy|Hy].
      * assert (0 < atan (y / x)) by (apply Hatan_pos; unfold Rdiv; nra).
        destruct (decide (0 < atan (y / x) - PI)); lra.
      * assert (atan (y / x) <= 0).
        { destruct (Req_dec y 0) as [->|Hy0].
          - unfold Rdiv. rewrite Rmult_0_l, atan_0. lra.
          - left. apply Hatan_neg. unfold Rdiv. nra. }
        destruct (decide (0 < atan (y / x) + PI)); lra.
    + assert (x = 0) as -> by lra.
      destruct (decide (0 < - 0)); [lra|].
      destruct (decide (- 0 < 0)); [lra|].
      destruct (decide (0 < y)) as [Hy|Hy].
      * destruct (decide (0 < - y)); [lra|].
        destruct (decide (- y < 0)); [|lra].
        destruct (decide (0 < PI / 2)); lra.
      * destruct (decide (y < 0)) as [Hy'|Hy'].
        -- destruct (decide (0 < - y)); [|lra].
           destruct (decide (0 < - (PI / 2))); lra.
        -- destruct Hxy; lra.
Qed.

Lemma measure_reversed (cfg : Range) (a b : Point) :
  distance b a = distance a b
  /\ cc_value cfg b a = cc_value cfg a b
  /\ (a <> b ->
      angle_degrees b a
      = if decide (0 < angle_degrees a b) then angle_degrees a b - 180
        else angle_degrees a b + 180).
Proof.
  split; [apply distance_sym|].
  split; [unfold cc_value; rewrite distance_sym; reflexivity|].
  intros Hab. destruct a as [x1 y1], b as [x2 y2].
  unfold angle_degrees. simpl fst. simpl snd.
  pose proof PI_RGT_0 as Hpi.
  set (dy := IZR y2 - IZR y1). set (dx := IZR x2 - IZR x1).
  replace (IZR y1 - IZR y2) with (- dy) by (unfold dy; ring).
  replace (IZR x1 - IZR x2) with (- dx) by (unfold dx; ring).
  assert (dx <> 0 \/ dy <> 0) as Hne.
  { destruct (Z.eq_dec x1 x2) as [->|Hx].
    - right. unfold dy. intros H. apply Hab. f_equal.
      symmetry. apply eq_IZR. lra.
    - left. unfold dx. intros H. apply Hx. symmetry. apply eq_IZR. lra. }
  rewrite (atan2_reverse dy dx Hne).
  assert (0 < 180 / PI) as Hk by (apply Rdiv_lt_0_compat; lra).
  assert (forall t, t * 180 / PI = t * (180 / PI)) as Hform
    by (intros; unfold Rdiv; ring).
  destruct (decide (0 < Py.atan2 dy dx)) as [Hpos|Hneg];
    destruct (decide (0 < Py.atan2 dy dx * 180 / PI)) as [Hpos'|Hneg'].
  - field. lra.
  - exfalso. apply Hneg'. rewrite Hform. nra.
  - exfalso. apply Hneg. rewrite Hform in Hpos'. nra.
  - field. lra.
Qed.

(** X5.  For a range with [min <> max]: called on a pair in the other
    order, [draw_line_info] returns the same distance and sends the same
    messages.  The angle turns round: for two different points it is the
    angle less 180 degrees when that angle is positive, and the angle plus
    180 degrees otherwise. *)
Theorem draw_line_info_reversed (cfg : Range) (a b : Point)
    (label_text : string) (color : Color) (midi_out : option MidiOut)
    (cc_number : option Z) :
  MIN_DIST_PX cfg <> MAX_DIST_PX cfg ->
  outcome (draw_line_info cfg (Some a) (Some b) label_text color
             midi_out cc_number)
  = inr (Some (distance a b, angle_degrees a b))
  /\ outcome (draw_line_info cfg (Some b) (Some a) label_text color
                midi_out cc_number)
     = inr (Some (distance a b,
                  if decide (a = b) then angle_degrees a b
                  else if decide (0 < angle_degrees a b)
                       then angle_degrees a b - 180
                       else angle_degrees a b + 180))
  /\ midi_messages (trace (draw_line_info cfg (Some b) (Some a) label_text
                             color midi_out cc_number))
     = midi_messages (trace (draw_line_info cfg (Some a) (Some b) label_text
                               color midi_out cc_number)).
Proof.
  intros Hne. rewrite !draw_line_info_present by exact Hne.
  destruct (measure_reversed cfg a b) as (Hd & Hcc & Hang).
  unfold outcome, trace. cbn [fst snd]. rewrite Hd, Hcc.
  split; [reflexivity|]. split.
  - destruct (decide (a = b)) as [->|Hab]; [reflexivity|].
    rewrite (Hang Hab). reflexivity.
  - destruct cc_number, midi_out; reflexivity.
Qed.

Lemma draw_line_info_reversed_witness :
  midi_messages (trace (draw_line_info shipped (Some (100, 150)%Z)
                          (Some (100, 100)%Z) "L T-I" (255, 0, 0)%Z
                          (Some (Port 0)) (Some 20%Z)))
  = midi_messages (trace (draw_line_info shipped (Some (100, 100)%Z)
                            (Some (100, 150)%Z) "L T-I" (255, 0, 0)%Z
                            (Some (Port 0)) (Some 20%Z))).
Proof.
  apply (draw_line_info_reversed shipped (100, 100)%Z (100, 150)%Z).
  simpl. lra.
Defined.

Lemma distance_positive (a b : Point) : a <> b -> 0 < distance a b.
Proof.
  intros Hab. destruct a as [x1 y1], b as [x2 y2]. unfold distance.
  simpl fst. simpl snd. apply sqrt_lt_R0.
  pose proof (pow2_ge_0 (IZR x2 - IZR x1)) as Hx0.
  pose proof (pow2_ge_0 (IZR y2 - IZR y1)) as Hy0.
  destruct (Z.eq_dec x1 x2) as [->|Hx].
  - assert (0 < (IZR y2 - IZR y1) ^ 2); [|lra].
    rewrite <- Rsqr_pow2. apply Rsqr_pos_lt.
    intros H. apply Hab. f_equal. symmetry. apply eq_IZR. lra.
  - assert (0 < (IZR x2 - IZR x1) ^ 2); [|lra].
    rewrite <- Rsqr_pow2. apply Rsqr_pos_lt.
    intros H. apply Hx. symmetry. apply eq_IZR. lra.
Qed.

(** X6.  The pair [draw_line_info] returns for two different points is the
    polar form of the vector from the first to the second: the distance is
    positive, and distance times the cosine (the sine) of the angle gives
    back the difference of the x (the y) coordinates. *)
Theorem draw_line_info_polar (label_text : string) (color : Color)
    (midi_out : option MidiOut) (cc_number : option Z) (x1 y1 x2 y2 : Z) :
  (x1, y1) <> (x2, y2) ->
  exists d angle : R,
    outcome (draw_line_info shipped (Some (x1, y1)) (Some (x2, y2))
               label_text color midi_out cc_number)
    = inr (Some (d, angle))
    /\ 0 < d
    /\ IZR (x2 - x1) = d * cos (angle * PI / 180)
    /\ IZR (y2 - y1) = d * sin (angle * PI / 180).
Proof.
  intros Hab.
  exists (distance (x1, y1) (x2, y2)), (angle_degrees (x1, y1) (x2, y2)).
  split; [apply draw_line_info_measure|].
  split; [apply distance_positive, Hab|].
  unfold distance, angle_degrees. simpl fst. simpl snd.
  rewrite !minus_IZR.
  set (dx := IZR x2 - IZR x1). set (dy := IZR y2 - IZR y1).
  assert (dx <> 0 \/ dy <> 0) as Hne.
  { destruct (Z.eq_dec x1 x2) as [->|Hx].
    - right. unfold dy. intros H. apply Hab. f_equal.
      apply eq_IZR. lra.
    - left. unfold dx. intros H. apply Hx. apply eq_IZR. lra. }
  replace (Py.atan2 dy dx * 180 / PI * PI / 180) with (Py.atan2 dy dx)
    by (field; apply PI_neq0).
  apply atan2_polar, Hne.
Qed.

Lemma draw_line_info_polar_witness :
  exists d angle : R,
    outcome (draw_line_info shipped (Some (100, 100)%Z) (Some (103, 96)%Z)
               "L T-I" (255, 0, 0)%Z None None)
    = inr (Some (d, angle))
    /\ 0 < d
    /\ IZR (103 - 100) = d * cos (angle * PI / 180)
    /\ IZR (96 - 100) = d * sin (angle * PI / 180).
Proof.
  apply (draw_line_info_polar "L T-I" (255, 0, 0)%Z None None 100 100 103 96).
  discriminate.
Defined.

Lemma atan2_axes (r : R) :
  0 < r ->
  Py.atan2 0 r = 0 /\ Py.atan2 r 0 = PI / 2
  /\ Py.atan2 0 (- r) = PI /\ Py.atan2 (- r) 0 = - (PI / 2).
Proof.
  intros Hr. unfold Py.atan2.
  destruct (decide (0 < r)); [|lra].
  destruct (decide (0 < 0)); [lra|].
  destruct (decide (0 < - r)); [lra|].
  destruct (decide (- r < 0)); [|lra].
  unfold Rdiv. rewrite !Rmult_0_l, atan_0.
  repeat split; ring.
Qed.

Lemma measure_vector (x1 y1 x2 y2 : Z) :
  measure (Some (x1, y1)) (Some (x2, y2))
  = Some (sqrt (IZR (x2 - x1) ^ 2 + IZR (y2 - y1) ^ 2),
          Py.atan2 (IZR (y2 - y1)) (IZR (x2 - x1)) * 180 / PI).
Proof.
  unfold measure, distance, angle_degrees. simpl fst. simpl snd.
  rewrite !minus_IZR. reflexivity.
Qed.

(** X7.  The directions of the axes.  A segment of length [n > 0] gives
    distance [n]; its angle is 0 degrees when it points to larger x, 90
    when it points to larger y (down the image), 180 (not -180) when it
    points to smaller x, and -90 when it points to smaller y. *)
Theorem draw_line_info_axes (label_text : string) (color : Color)
    (midi_out : option MidiOut) (cc_number : option Z) (x y n : Z) :
  (0 < n)%Z ->
  outcome (draw_line_info shipped (Some (x, y)) (Some (x + n, y)%Z)
             label_text color midi_out cc_number)
  = inr (Some (IZR n, 0))
  /\ outcome (draw_line_info shipped (Some (x, y)) (Some (x, y + n)%Z)
                label_text color midi_out cc_number)
     = inr (Some (IZR n, 90))
  /\ outcome (draw_line_info shipped (Some (x, y)) (Some (x - n, y)%Z)
                label_text color midi_out cc_number)
     = inr (Some (IZR n, 180))
  /\ outcome (draw_line_info shipped (Some (x, y)) (Some (x, y - n)%Z)
                label_text color midi_out cc_number)
     = inr (Some (IZR n, -90)).
Proof.
  intros Hn. apply IZR_lt in Hn. pose proof PI_neq0 as Hpi.
  destruct (atan2_axes (IZR n) Hn) as (Hright & Hdown & Hleft & Hup).
  assert (sqrt (IZR n ^ 2 + 0 ^ 2) = IZR n) as Hd1.
  { replace (IZR n ^ 2 + 0 ^ 2) with (IZR n * IZR n) by ring.
    apply sqrt_square. lra. }
  assert (sqrt (0 ^ 2 + IZR n ^ 2) = IZR n) as Hd2.
  { replace (0 ^ 2 + IZR n ^ 2) with (IZR n * IZR n) by ring.
    apply sqrt_square. lra. }
  assert (sqrt ((- IZR n) ^ 2 + 0 ^ 2) = IZR n) as Hd3.
  { replace ((- IZR n) ^ 2 + 0 ^ 2) with (IZR n * IZR n) by ring.
    apply sqrt_square. lra. }
  assert (sqrt (0 ^ 2 + (- IZR n) ^ 2) = IZR n) as Hd4.
  { replace (0 ^ 2 + (- IZR n) ^ 2) with (IZR n * IZR n) by ring.
    apply sqrt_square. lra. }
  rewrite !draw_line_info_measure, !measure_vector.
  replace (x + n - x)%Z with n by lia. replace (y - y)%Z with 0%Z by lia.
  replace (x - x)%Z with 0%Z by lia. replace (y + n - y)%Z with n by lia.
  replace (x - n - x)%Z with (- n)%Z by lia.
  replace (y - n - y)%Z with (- n)%Z by lia.
  rewrite !opp_IZR, Hd1, Hd2, Hd3, Hd4, Hright, Hdown, Hleft, Hup.
  repeat split; do 3 f_equal; field; exact Hpi.
Qed.

Lemma draw_line_info_axes_witness :
  outcome (draw_line_info shipped (Some (10, 20)%Z) (Some (10 - 7, 20)%Z)
             "T-T" (0, 255, 255)%Z None None)
  = inr (Some (IZR 7, 180)).
Proof.
  apply (draw_line_info_axes "T-T" (0, 255, 255)%Z None None 10 20 7).
  lia.
Defined.

(** ** The normalizer: steps, ends, errors *)










(** X12.  For the range of the source, 20 to 400, and two pixels at
    squared distance [n], the controller value is an integer function of
    [n]: 0 below 400, 127 from 160000 on, and between them the integer
    square root of [16129 * n], less 2540, divided by 380 (rounding
    down). *)
Theorem cc_value_from_squared_distance (x1 y1 x2 y2 : Z) :
  normalize_to_cc (sqrt (IZR ((x2 - x1) ^ 2 + (y2 - y1) ^ 2)))
    (MIN_DIST_PX shipped) (MAX_DIST_PX shipped)
  = inr (let n := ((x2 - x1) ^ 2 + (y2 - y1) ^ 2)%Z in
         if (n <? 400)%Z then 0%Z
         else if (160000 <=? n)%Z then 127%Z
         else ((Z.sqrt (16129 * n) - 2540) / 380)%Z).
Proof.
  rewrite normalize_to_cc_toCC by exact shipped_valid.
  simpl MIN_DIST_PX. simpl MAX_DIST_PX.
  rewrite exact_cc_of_squared by nia. reflexivity.
Qed.

(** ** The extractor: pixels, no detection, malformed detection *)

Lemma py_int_unit_interval (x : R) (w : Z) :
  0 <= x <= 1 -> (0 <= w)%Z ->
  (0 <= Py.int (x * IZR w) <= w)%Z
  /\ (x < 1 -> (0 < w)%Z -> (Py.int (x * IZR w) < w)%Z).
Proof.
  intros [Hx0 Hx1] Hw. apply IZR_le in Hw.
  assert (0 <= x * IZR w <= IZR w) as [Hp0 Hp1] by nra.
  rewrite py_int_nonneg by exact Hp0.
  pose proof (Zfloor_bound (x * IZR w)) as [Hf1 Hf2].
  split; [split|].
  - apply Zfloor_lub. exact Hp0.
  - apply le_IZR. lra.
  - intros Hlt Hpos. apply IZR_lt in Hpos. apply lt_IZR. nra.
Qed.

(** X13.  A landmark with both normalized coordinates in [0, 1] is placed
    on a pixel with [0 <= x <= w] and [0 <= y <= h]; the pixel is inside
    the frame ([x < w], [y < h]) when the coordinate is below 1, so that
    only a landmark exactly on the right or bottom edge falls one past the
    last column or row. *)
Theorem pixel_in_frame (tip : Landmark) (w h : Z) :
  0 <= lm_x tip <= 1 -> 0 <= lm_y tip <= 1 -> (0 <= w)%Z -> (0 <= h)%Z ->
  (0 <= fst (pixel tip w h) <= w)%Z
  /\ (0 <= snd (pixel tip w h) <= h)%Z
  /\ (lm_x tip < 1 -> (0 < w)%Z -> (fst (pixel tip w h) < w)%Z)
  /\ (lm_y tip < 1 -> (0 < h)%Z -> (snd (pixel tip w h) < h)%Z).
Proof.
  intros Hx Hy Hw Hh. unfold pixel. simpl fst. simpl snd.
  destruct (py_int_unit_interval (lm_x tip) w Hx Hw) as [Hx1 Hx2].
  destruct (py_int_unit_interval (lm_y tip) h Hy Hh) as [Hy1 Hy2].
  auto.
Qed.

Lemma pixel_in_frame_witness :
  (0 <= fst (pixel {| lm_x := 1; lm_y := 0.999 |} 640 480) <= 640)%Z
  /\ (0 <= snd (pixel {| lm_x := 1; lm_y := 0.999 |} 640 480) <= 480)%Z
  /\ (lm_x {| lm_x := 1; lm_y := 0.999 |} < 1 -> (0 < 640)%Z ->
      (fst (pixel {| lm_x := 1; lm_y := 0.999 |} 640 480) < 640)%Z)
  /\ (lm_y {| lm_x := 1; lm_y := 0.999 |} < 1 -> (0 < 480)%Z ->
      (snd (pixel {| lm_x := 1; lm_y := 0.999 |} 640 480) < 480)%Z).
Proof.
  apply (pixel_in_frame {| lm_x := 1; lm_y := 0.999 |} 640 480);
    simpl; try lra; lia.
Defined.

Lemma extract_nothing (w h : Z) (results : Results) :
  multi_hand_landmarks results = None
  \/ multi_hand_landmarks results = Some []
  \/ multi_handedness results = None
  \/ multi_handedness results = Some [] ->
  extract w h results = ([], inr (coords_of None None None None)).
Proof.
  intros Hnone. unfold extract.
  destruct Hnone as [-> | [-> | [-> | ->]]]; simpl;
    rewrite ?andb_false_r; try reflexivity;
    destruct (truthy (multi_hand_landmarks results)); reflexivity.
Qed.

(** X14.  When the detector reports no hands, either list being [None] or
    empty, the extractor draws nothing, raises nothing and leaves all four
    fingertips absent. *)
Theorem extract_no_detection (w h : Z) (results : Results) :
  multi_hand_landmarks results = None
  \/ multi_hand_landmarks results = Some []
  \/ multi_handedness results = None
  \/ multi_handedness results = Some [] ->
  extract w h results = ([], inr (coords_of None None None None))
  /\ getitem2 (coords_of None None None None) "Left" "thumb" = inr None
  /\ getitem2 (coords_of None None None None) "Left" "index" = inr None
  /\ getitem2 (coords_of None None None None) "Right" "thumb" = inr None
  /\ getitem2 (coords_of None None None None) "Right" "index" = inr None.
Proof.
  intros Hnone. split; [|repeat split; reflexivity].
  apply extract_nothing, Hnone.
Qed.

Lemma extract_no_detection_witness :
  extract 640 480 {| multi_hand_landmarks := Some [[]];
                     multi_handedness := None |}
  = ([], inr (coords_of None None None None)).
Proof.
  apply (extract_no_detection 640 480
           {| multi_hand_landmarks := Some [[]]; multi_handedness := None |}).
  right. right. left. reflexivity.
Defined.

Lemma for_each_app {A S : Type} (body : S -> A -> M S) (s : S)
    (xs ys : list A) :
  for_each body s (xs ++ ys)
  = bind (for_each body s xs) (fun s' => for_each body s' ys).
Proof.
  revert s. induction xs as [|x xs IH]; intros s; simpl.
  - unfold pure, bind. destruct (for_each body s ys). reflexivity.
  - unfold bind at 1 3. destruct (body s x) as [tr [e|s']]; [reflexivity|].
    rewrite IH. unfold bind.
    destruct (for_each body s' xs) as [tr1 [e|s'']]; [reflexivity|].
    destruct (for_each body s'' ys) as [tr2 r].
    rewrite app_assoc. reflexivity.
Qed.

Lemma for_each_detected_trace (w h : Z)
    (hands : list (list Landmark * list Classification)) :
  Forall (detected w h) hands ->
  forall lt li rt ri : option Point,
    for_each (hand_step w h) (coords_of lt li rt ri) hands
    = (markers w h hands,
       inr (coords_of
              (thumb_after "Left" (omap (hand_view w h) hands) lt)
              (index_after "Left" (omap (hand_view w h) hands) li)
              (thumb_after "Right" (omap (hand_view w h) hands) rt)
              (index_after "Right" (omap (hand_view w h) hands) ri))).
Proof.
  induction 1 as [|hand rest (s & px & Hview & Hside) Hrest IH];
    intros lt li rt ri.
  - reflexivity.
  - rewrite for_each_cons, (hand_step_view _ _ _ _ _ _ _ _ _ Hview).
    unfold markers. simpl flat_map. simpl omap. rewrite Hview.
    fold (markers w h rest).
    unfold thumb_after, index_after. simpl last_labelled.
    destruct Hside as [-> | ->].
    + destruct (decide ("Left" = "Left")) as [_|]; [|congruence].
      destruct (decide ("Left" = "Right")) as [|_]; [discriminate|].
      rewrite bind_value, IH. cbn [fst snd]. f_equal. f_equal.
      unfold thumb_after, index_after.
      destruct (last_labelled "Left" _), (last_labelled "Right" _); reflexivity.
    + destruct (decide ("Right" = "Left")) as [|_]; [discriminate|].
      destruct (decide ("Right" = "Right")) as [_|]; [|congruence].
      rewrite bind_value, IH. cbn [fst snd]. f_equal. f_equal.
      unfold thumb_after, index_after.
      destruct (last_labelled "Left" _), (last_labelled "Right" _); reflexivity.
Qed.

(** X15.  The first hand that is not as specified stops the extractor.
    When the hands before it are well formed, their markers are drawn and
    nothing else: a hand with no classification or with fewer than nine
    landmarks raises [IndexError]; a hand whose label is neither [Left]
    nor [Right] raises [KeyError] with that label.  The hands after it are
    not looked at. *)
Theorem extract_malformed_hand (w h : Z) (results : Results)
    (before after : list (list Landmark * list Classification))
    (hand : list Landmark * list Classification) :
  hands_of results = before ++ hand :: after ->
  Forall (detected w h) before ->
  (hand_view w h hand = None ->
   extract w h results = (markers w h before, inl Py.IndexError))
  /\ (forall (s : string) (px : Point * Point),
         hand_view w h hand = Some (s, px) ->
         s <> "Left" -> s <> "Right" ->
         extract w h results = (markers w h before, inl (Py.KeyError s))).
Proof.
  intros Hhands Hbefore.
  rewrite extract_hands_of, Hhands, for_each_app.
  change fresh_coords with (coords_of None None None None).
  rewrite (for_each_detected_trace w h before Hbefore), bind_value.
  cbn [fst snd]. rewrite for_each_cons. split.
  - intros Hview. rewrite (hand_step_no_view _ _ _ _ Hview), bind_raise.
    cbn [fst snd]. rewrite app_nil_r. reflexivity.
  - intros s px Hview HL HR.
    rewrite (hand_step_view _ _ _ _ _ _ _ _ _ Hview).
    destruct (decide (s = "Left")); [contradiction|].
    destruct (decide (s = "Right")); [contradiction|].
    rewrite bind_raise. cbn [fst snd]. rewrite app_nil_r. reflexivity.
Qed.

Lemma extract_malformed_hand_witness :
  extract 200 200
    (sample_results [sample_left_hand; ([], [{| label := "Left" |}])])
  = (markers 200 200 [sample_left_hand], inl Py.IndexError).
Proof.
  apply (extract_malformed_hand 200 200
           (sample_results [sample_left_hand; ([], [{| label := "Left" |}])])
           [sample_left_hand] [] ([], [{| label := "Left" |}])).
  - reflexivity.
  - constructor; [|constructor].
    apply sample_hand_detected. left. reflexivity.
  - reflexivity.
Defined.

Lemma last_labelled_absent (w h : Z) (side : string)
    (hands : list (list Landmark * list Classification)) :
  Forall (fun hand => forall px, hand_view w h hand <> Some (side, px)) hands ->
  last_labelled side (omap (hand_view w h) hands) = None.
Proof.
  intros Hside. apply last_labelled_none.
  induction Hside as [|hand rest Hne _ IH]; simpl; [constructor|].
  destruct (hand_view w h hand) as [[s p]|] eqn:Hv; [|exact IH].
  constructor; [|exact IH]. simpl. intros ->. apply (Hne p). reflexivity.
Qed.

(** X16.  On hands as the detector is specified to return them, the
    extractor raises nothing, draws the markers of every hand, in order,
    and records for each side the fingertips of the last hand with that
    label; a side that no hand is labelled with stays absent, thumb and
    index both. *)
Theorem extract_detected (w h : Z) (results : Results) :
  Forall (detected w h) (hands_of results) ->
  extract w h results
  = (markers w h (hands_of results),
     inr (coords_of
            (fst <$> last_labelled "Left" (omap (hand_view w h) (hands_of results)))
            (snd <$> last_labelled "Left" (omap (hand_view w h) (hands_of results)))
            (fst <$> last_labelled "Right" (omap (hand_view w h) (hands_of results)))
            (snd <$> last_labelled "Right" (omap (hand_view w h) (hands_of results)))))
  /\ forall side : string,
       Forall (fun hand => forall px, hand_view w h hand <> Some (side, px))
         (hands_of results) ->
       last_labelled side (omap (hand_view w h) (hands_of results)) = None.
Proof.
  intros Hdet. split; [|intros side; apply last_labelled_absent].
  rewrite extract_hands_of.
  change fresh_coords with (coords_of None None None None).
  rewrite (for_each_detected_trace w h _ Hdet).
  unfold thumb_after, index_after.
  destruct (last_labelled "Left" _), (last_labelled "Right" _); reflexivity.
Qed.

Lemma extract_detected_witness :
  extract 200 200 (sample_results [sample_left_hand])
  = (markers 200 200 [sample_left_hand],
     inr (coords_of (Some (100, 100)%Z) (Some (100, 150)%Z) None None)).
Proof.
  destruct (extract_detected 200 200 (sample_results [sample_left_hand]))
    as [Hex _].
  - constructor; [|constructor].
    apply sample_hand_detected. left. reflexivity.
  - rewrite Hex. change (hands_of (sample_results [sample_left_hand]))
      with [sample_left_hand].
    cbn [omap list_omap]. rewrite sample_left_hand_view. reflexivity.
Defined.

(** ** The loop as a whole *)

Lemma trace_bind {A B : Type} (m : M A) (k : A -> M B) :
  trace (bind m k)
  = trace m ++ match outcome m with
               | inr a => trace (k a)
               | inl _ => []
               end.
Proof.
  destruct m as [tr [e|a]]; unfold bind, trace, outcome; simpl.
  - rewrite app_nil_r. reflexivity.
  - destruct (k a). reflexivity.
Qed.

Lemma outcome_bind {A B : Type} (m : M A) (k : A -> M B) :
  outcome (bind m k)
  = match outcome m with
    | inr a => outcome (k a)
    | inl e => inl e
    end.
Proof.
  destruct m as [tr [e|a]]; unfold bind, outcome; simpl; [reflexivity|].
  destruct (k a). reflexivity.
Qed.

Lemma Forall_trace_bind {A B : Type} (P : Event -> Prop) (m : M A)
    (k : A -> M B) :
  Forall P (trace m) ->
  (forall a : A, outcome m = inr a -> Forall P (trace (k a))) ->
  Forall P (trace (bind m k)).
Proof.
  intros Hm Hk. rewrite trace_bind. apply Forall_app. split; [exact Hm|].
  destruct (outcome m) as [e|a]; [constructor|]. apply Hk. reflexivity.
Qed.

Lemma sent_bind {A B : Type} (m : M A) (k : A -> M B) (n1 n2 : nat) :
  (length (midi_messages (trace m)) <= n1)%nat ->
  (forall a : A, outcome m = inr a ->
     (length (midi_messages (trace (k a))) <= n2)%nat) ->
  (length (midi_messages (trace (bind m k))) <= n1 + n2)%nat.
Proof.
  intros Hm Hk. rewrite trace_bind, midi_messages_app, length_app.
  destruct (outcome m) as [e|a]; [simpl; lia|].
  specialize (Hk a eq_refl). lia.
Qed.

Lemma draw_line_info_frame_event (cfg : Range) (out : MidiOut)
    (p1 p2 : option Point) (lbl : string) (col : Color) (c : Z) :
  In c [CC_LEFT_HAND; CC_RIGHT_HAND; CC_THUMB_TO_THUMB; CC_INDEX_TO_INDEX] ->
  Forall (frame_event out)
    (trace (draw_line_info cfg p1 p2 lbl col (Some out) (Some c)))
  /\ Forall (frame_event out)
       (trace (draw_line_info cfg p1 p2 lbl col None None)).
Proof.
  intros Hc.
  assert (Z.land c 127 = c) as Hland.
  { apply land_127. unfold CC_LEFT_HAND, CC_RIGHT_HAND, CC_THUMB_TO_THUMB,
      CC_INDEX_TO_INDEX in Hc. simpl in Hc. lia. }
  destruct p1 as [[x1 y1]|], p2 as [[x2 y2]|]; try (split; constructor).
  unfold draw_line_info, send_cc.
  destruct (normalize_to_cc _ _ _) as [e|v]; unfold trace; cbn [bind emit lift pure fst app].
  - split; repeat constructor.
  - rewrite Hland. split; repeat constructor.
    exists c, (Z.max 0 (Z.min 127 v)). split; [reflexivity|]. split; [exact Hc|lia].
Qed.

Lemma draw_line_info_sent (cfg : Range) (out : MidiOut)
    (p1 p2 : option Point) (lbl : string) (col : Color) (c : Z) :
  (length (midi_messages
             (trace (draw_line_info cfg p1 p2 lbl col (Some out) (Some c))))
   <= 1)%nat
  /\ (length (midi_messages
                (trace (draw_line_info cfg p1 p2 lbl col None None)))
      <= 0)%nat.
Proof.
  destruct p1 as [[x1 y1]|], p2 as [[x2 y2]|]; try (split; simpl; lia).
  unfold draw_line_info, send_cc.
  destruct (normalize_to_cc _ _ _) as [e|v]; unfold trace;
    cbn [bind emit lift pure fst app]; split; simpl; lia.
Qed.

Ltac cc_member :=
  unfold CC_LEFT_HAND, CC_RIGHT_HAND, CC_THUMB_TO_THUMB, CC_INDEX_TO_INDEX;
  simpl; tauto.

Lemma draw_all_frame_event (cfg : Range) (out : MidiOut)
    (lt li rt ri : option Point) :
  Forall (frame_event out) (trace (draw_all cfg lt li rt ri (Some out) Some))
  /\ Forall (frame_event out)
       (trace (draw_all cfg lt li rt ri None (fun _ => None))).
Proof.
  unfold draw_all. split;
    repeat (apply Forall_trace_bind;
            [eapply draw_line_info_frame_event; cc_member | intros ? _]);
    constructor.
Qed.

Lemma draw_all_sent (cfg : Range) (out : MidiOut)
    (lt li rt ri : option Point) :
  (length (midi_messages (trace (draw_all cfg lt li rt ri (Some out) Some)))
   <= 4)%nat
  /\ (length (midi_messages
                (trace (draw_all cfg lt li rt ri None (fun _ => None))))
      <= 0)%nat.
Proof.
  unfold draw_all. split.
  - change 4%nat with (1 + (1 + (1 + (1 + 0))))%nat.
    repeat (apply sent_bind;
            [eapply (draw_line_info_sent cfg out) | intros ? _]).
    unfold trace, pure, midi_messages. simpl. lia.
  - repeat (apply (sent_bind _ _ 0 0);
            [apply (draw_line_info_sent cfg out _ _ _ _ 0%Z) | intros ? _]).
    unfold trace, pure, midi_messages. simpl. lia.
Qed.

Lemma measure_and_send_frame_event (cfg : Range) (out : MidiOut) (last now : R)
    (coords : gmap string (gmap string (option Point))) :
  Forall (frame_event out) (trace (measure_and_send cfg out last coords now)).
Proof.
  unfold measure_and_send.
  repeat (apply Forall_trace_bind; [constructor | intros ? _]).
  destruct (send_midi_now now last);
    (apply Forall_trace_bind; [apply draw_all_frame_event | intros ? _]);
    constructor.
Qed.

Lemma measure_and_send_sent (cfg : Range) (out : MidiOut) (last now : R)
    (coords : gmap string (gmap string (option Point))) :
  (length (midi_messages (trace (measure_and_send cfg out last coords now)))
   <= if send_midi_now now last then 4 else 0)%nat
  /\ forall r, outcome (measure_and_send cfg out last coords now) = inr r ->
               snd r = if send_midi_now now last then now else last.
Proof.
  unfold measure_and_send. split.
  - repeat (apply (sent_bind _ _ 0);
            [unfold lift, trace; simpl; lia | intros ? _]).
    destruct (send_midi_now now last).
    + change 4%nat with (4 + 0)%nat.
      apply sent_bind; [apply draw_all_sent | intros ? _].
      unfold trace, pure, midi_messages. simpl. lia.
    + apply (sent_bind _ _ 0 0); [apply (draw_all_sent cfg out) | intros ? _].
      unfold trace, pure, midi_messages. simpl. lia.
  - intros r.
    repeat (rewrite outcome_bind;
            match goal with
            | |- context [outcome (lift ?x)] =>
                change (outcome (lift x)) with x; destruct x; [discriminate|]
            end).
    destruct (send_midi_now now last); rewrite outcome_bind;
      match goal with
      | |- context [outcome (draw_all ?c ?a1 ?a2 ?a3 ?a4 ?mo ?cc)] =>
          destruct (outcome (draw_all c a1 a2 a3 a4 mo cc))
      end; try discriminate;
      unfold outcome, pure; simpl; intros [= <-]; reflexivity.
Qed.

Lemma hand_step_frame_event (out : MidiOut) (w h : Z)
    (coords : gmap string (gmap string (option Point)))
    (hand : list Landmark * list Classification) :
  Forall (frame_event out) (trace (hand_step w h coords hand)).
Proof.
  destruct hand as [lms cls]. unfold hand_step.
  repeat (apply Forall_trace_bind; [repeat constructor | intros ? _]).
  constructor.
Qed.

Lemma for_each_frame_event {A S : Type} (P : Event -> Prop)
    (body : S -> A -> M S) (xs : list A) :
  (forall s x, Forall P (trace (body s x))) ->
  forall s : S, Forall P (trace (for_each body s xs)).
Proof.
  intros Hbody. induction xs as [|x rest IH]; intros s; simpl.
  - constructor.
  - apply Forall_trace_bind; [apply Hbody | intros s' _; apply IH].
Qed.

Lemma extract_frame_event (out : MidiOut) (w h : Z) (results : Results) :
  Forall (frame_event out) (trace (extract w h results)).
Proof.
  unfold extract. destruct (_ && _); [|constructor].
  apply for_each_frame_event. intros s x. apply hand_step_frame_event.
Qed.

Lemma iteration_frame_event (cfg : Range) (out : MidiOut) (last : R) (t : Tick) :
  Forall (frame_event out) (trace (iteration cfg out last t)).
Proof.
  unfold iteration. destruct (negb (ret t)); [constructor|].
  apply Forall_trace_bind; [apply extract_frame_event | intros coords _].
  apply Forall_trace_bind; [apply measure_and_send_frame_event | intros r _].
  apply Forall_trace_bind; [repeat constructor | intros ? _].
  destruct (Z.land (key t) 255 =? 113)%Z; constructor.
Qed.

Lemma loop_frame_event (cfg : Range) (out : MidiOut) (ticks : list Tick) :
  forall last : R,
    Forall (frame_event out) (trace (loop cfg out last ticks)).
Proof.
  induction ticks as [|t rest IH]; intros last; simpl; [constructor|].
  apply Forall_trace_bind; [apply iteration_frame_event | intros r _].
  destruct (fst r); [apply IH | constructor].
Qed.

Lemma startup_events (ports : list string) :
  exists (out : MidiOut) (opened : Event) (said : string),
    startup ports
    = ([StdoutPorts ports; opened; Stdout said; VideoCapture 0; HandsCreate;
        Stdout "Press 'q' to quit."], inr (out, 0))
    /\ (opened = OpenPort (match out with Port i => i | _ => 0%nat end)
        \/ opened = OpenVirtualPort "PoseHandControl").
Proof.
  unfold startup, find_midi_port.
  destruct (scan_ports MIDI_PORT_NAME_SUBSTRING 0 ports) as [[i name]|].
  - exists (Port i), (OpenPort i), ("Opened MIDI port: " ++ name)%string.
    split; [reflexivity|]. left. reflexivity.
  - eexists _, _, _. split; [reflexivity|]. right. reflexivity.
Qed.

(** X17.  Whatever the range, the ports and the frames, every MIDI message
    of a run goes to the output opened at the start and is a Control
    Change on channel 0 for one of the controllers 20 to 23 with a data
    byte in 0..127. *)
Theorem run_sends_control_changes (cfg : Range) (ports : list string)
    (ticks : list Tick) :
  exists out : MidiOut,
    outcome (startup ports) = inr (out, 0)
    /\ forall (o : MidiOut) (msg : list Z),
         In (SendMessage o msg) (trace (run cfg ports ticks)) ->
         o = out
         /\ exists c v : Z,
              msg = [176; c; v]%Z /\ (20 <= c <= 23)%Z /\ (0 <= v <= 127)%Z.
Proof.
  destruct (startup_events ports) as (out & opened & said & Hs & Hopened).
  exists out. split; [rewrite Hs; reflexivity|].
  intros o msg Hin. unfold run in Hin. rewrite Hs, bind_value in Hin.
  cbv beta in Hin. cbn [fst snd] in Hin.
  pose proof (loop_frame_event cfg out ticks 0) as Hloop.
  destruct (loop cfg out 0 ticks) as [trL r]. unfold trace in *.
  assert (In (SendMessage o msg) trL) as HinL.
  { destruct r as [e|l]; cbn in Hin;
      repeat (destruct Hin as [Hin|Hin];
              [first [discriminate Hin | destruct Hopened; congruence]|]);
      rewrite ?app_nil_r in Hin; apply in_app_or in Hin;
      destruct Hin as [Hin|Hin]; try exact Hin;
      simpl in Hin; repeat (destruct Hin as [Hin|Hin]; [discriminate Hin|]);
      contradiction. }
  cbn [fst] in Hloop. rewrite List.Forall_forall in Hloop.
  destruct (Hloop _ HinL) as [-> (c & v & -> & Hc & Hv)].
  split; [reflexivity|]. exists c, v. split; [reflexivity|]. split; [|exact Hv].
  unfold CC_LEFT_HAND, CC_RIGHT_HAND, CC_THUMB_TO_THUMB, CC_INDEX_TO_INDEX in Hc.
  simpl in Hc. lia.
Qed.

(** X18.  The three cleanup calls are the last three events of every run,
    in the order of the [finally] block, and occur nowhere before: they
    run once, whether the loop ended by itself or a frame raised, and an
    exception of the loop is raised again after them. *)
Theorem run_cleanup (cfg : Range) (ports : list string) (ticks : list Tick) :
  exists (out : MidiOut) (before : list Event),
    outcome (startup ports) = inr (out, 0)
    /\ trace (run cfg ports ticks)
       = before ++ [CapRelease; DestroyAllWindows; HandsClose]
    /\ before = trace (startup ports) ++ trace (loop cfg out 0 ticks)
    /\ Forall (fun e => e <> CapRelease /\ e <> DestroyAllWindows
                        /\ e <> HandsClose) before
    /\ outcome (run cfg ports ticks)
       = match outcome (loop cfg out 0 ticks) with
         | inl e => inl e
         | inr _ => inr tt
         end.
Proof.
  destruct (startup_events ports) as (out & opened & said & Hs & Hopened).
  destruct (run_parts cfg ports ticks) as (tr & out' & Hs' & _ & Hrun).
  rewrite Hs in Hs'. injection Hs' as <- <-.
  exists out, (trace (startup ports) ++ trace (loop cfg out 0 ticks)).
  rewrite Hrun, Hs. unfold trace at 1 2, outcome at 1 2. cbn [fst snd].
  split; [reflexivity|]. split; [rewrite <- app_assoc; reflexivity|].
  split; [reflexivity|]. split; [|reflexivity].
  apply Forall_app. split.
  - repeat (apply Forall_cons; split;
            [first [ repeat split; discriminate
                   | destruct Hopened as [-> | ->]; repeat split; discriminate ]|]).
    constructor.
  - eapply Forall_impl; [apply (loop_frame_event cfg out ticks 0)|].
    intros e He. destruct e; try contradiction; repeat split; discriminate.
Qed.

(** ** The rate of the messages *)

Lemma iteration_sent (cfg : Range) (out : MidiOut) (last : R) (t : Tick) :
  (length (midi_messages (trace (iteration cfg out last t)))
   <= if send_midi_now (now t) last then 4 else 0)%nat
  /\ forall (f : Flow) (l : R),
       outcome (iteration cfg out last t) = inr (f, l) ->
       l = if send_midi_now (now t) last && ret t then now t else last.
Proof.
  unfold iteration. destruct (ret t); simpl negb; cbv iota.
  - rewrite andb_true_r. split.
    + replace (if send_midi_now (now t) last then 4%nat else 0%nat)
        with (0 + ((if send_midi_now (now t) last then 4 else 0) + (0 + 0)))%nat
        by lia.
      apply sent_bind; [rewrite extract_no_midi; simpl; lia | intros coords _].
      apply sent_bind; [apply measure_and_send_sent | intros r _].
      apply sent_bind; [unfold trace, emit, midi_messages; simpl; lia | intros ? _].
      destruct (Z.land (key t) 255 =? 113)%Z;
        unfold trace, pure, midi_messages; simpl; lia.
    + intros f l. rewrite outcome_bind.
      destruct (outcome (extract _ _ _)) as [e|coords]; [discriminate|].
      rewrite outcome_bind.
      pose proof (proj2 (measure_and_send_sent cfg out last (now t) coords))
        as Hlast.
      destruct (outcome (measure_and_send cfg out last coords (now t)))
        as [e|r]; [discriminate|].
      specialize (Hlast r eq_refl). rewrite outcome_bind.
      change (outcome (emit ImShow)) with (@inr Py.Exn unit tt). cbv iota.
      destruct (Z.land (key t) 255 =? 113)%Z; unfold outcome, pure; simpl;
        intros [= _ <-]; exact Hlast.
  - rewrite andb_false_r. split.
    + unfold trace, pure, midi_messages. simpl.
      destruct (send_midi_now _ _); lia.
    + unfold outcome, pure. simpl. intros f l [= _ <-]. reflexivity.
Qed.

Lemma loop_budget (cfg : Range) (out : MidiOut) (T : R) (ticks : list Tick) :
  (forall t : Tick, In t ticks -> now t <= T) ->
  forall last : R,
    last <= T ->
    INR (length (midi_messages (trace (loop cfg out last ticks))))
    <= 120 * (T - last).
Proof.
  induction ticks as [|t rest IH]; intros Hticks last Hlast.
  - change (INR (length (midi_messages (trace (loop cfg out last [])))))
      with 0. lra.
  - simpl loop. rewrite trace_bind, midi_messages_app, length_app, plus_INR.
    destruct (iteration_sent cfg out last t) as [Hsent Hnext].
    assert (now t <= T) as Hnow by (apply Hticks; left; reflexivity).
    assert (INR (length (midi_messages (trace (iteration cfg out last t))))
            <= if send_midi_now (now t) last then 4 else 0) as Hsent'.
    { apply le_INR in Hsent. destruct (send_midi_now (now t) last);
        simpl in Hsent; lra. }
    assert (send_midi_now (now t) last = true -> 4 < 120 * (now t - last))
      as Hopen.
    { intros Hg. apply send_midi_now_true in Hg. unfold send_interval in Hg. lra. }
    assert (ret t = false ->
            INR (length (midi_messages (trace (iteration cfg out last t)))) = 0)
      as Hfail.
    { intros Hret. unfold iteration. rewrite Hret. reflexivity. }
    destruct (outcome (iteration cfg out last t)) as [e|[f l]] eqn:Hout.
    + change (INR (length (midi_messages (@nil Event)))) with 0.
      destruct (send_midi_now (now t) last); [specialize (Hopen eq_refl)|]; lra.
    + specialize (Hnext f l eq_refl). cbn [fst snd].
      assert (l <= T) as Hl.
      { rewrite Hnext. destruct (_ && _); assumption. }
      assert (INR (length (midi_messages (trace (iteration cfg out last t))))
              <= 120 * (l - last)) as Hstep.
      { rewrite Hnext. destruct (ret t).
        - rewrite andb_true_r.
          destruct (send_midi_now (now t) last);
            [specialize (Hopen eq_refl)|]; lra.
        - rewrite andb_false_r, (Hfail eq_refl). lra. }
      destruct f.
      * pose proof (IH (fun t' Hin => Hticks t' (or_intror Hin)) l Hl) as Hrest.
        lra.
      * change (INR (length (midi_messages (trace (pure l))))) with 0. lra.
Qed.

(** X19.  The rate limit, end to end: a run whose clock readings are all
    at most [T] seconds sends at most [120 * T] MIDI messages, four per
    thirtieth of a second, whatever the range, the frames and the order
    of the readings. *)
Theorem run_rate_limit (cfg : Range) (ports : list string) (ticks : list Tick)
    (T : R) :
  0 <= T ->
  (forall t : Tick, In t ticks -> now t <= T) ->
  INR (length (midi_messages (trace (run cfg ports ticks)))) <= 120 * T.
Proof.
  intros HT Hticks.
  destruct (run_midi cfg ports ticks) as (out & _ & ->).
  pose proof (loop_budget cfg out T ticks Hticks 0 HT) as H. lra.
Qed.

Lemma run_rate_limit_witness :
  INR (length (midi_messages
                 (trace (run shipped [] [sample_tick 0.5; sample_tick 1]))))
  <= 120 * 1.
Proof.
  apply (run_rate_limit shipped [] [sample_tick 0.5; sample_tick 1] 1).
  - lra.
  - intros t [<- | [<- | []]]; simpl; lra.
Defined.

Lemma gate_first (times : list R) :
  forall (last : R) (j : nat) (tj : R),
    gate_decisions last times !! j = Some true ->
    times !! j = Some tj ->
    tj - last > send_interval.
Proof.
  induction times as [|t0 rest IH]; intros last j tj Hd Ht; [discriminate|].
  destruct j as [|j]; simpl in Hd, Ht.
  - injection Hd as Hd. injection Ht as <-. apply send_midi_now_true, Hd.
  - specialize (IH _ j tj Hd Ht).
    destruct (send_midi_now t0 last) eqn:Hg; [|exact IH].
    apply send_midi_now_true in Hg. unfold send_interval in *. lra.
Qed.

(** X20.  Two frames whose emit decision is true are more than a
    thirtieth of a second apart by the clock, and the first of them is
    more than a thirtieth of a second after the initial [last_send]; this
    holds for any clock readings, increasing or not. *)
Theorem gate_spacing (last : R) (times : list R) (i j : nat) (ti tj : R) :
  (i < j)%nat ->
  gate_decisions last times !! i = Some true ->
  gate_decisions last times !! j = Some true ->
  times !! i = Some ti ->
  times !! j = Some tj ->
  tj - ti > send_interval /\ ti - last > send_interval.
Proof.
  intros Hij Hdi Hdj Hti Htj. split; [|exact (gate_first times last i ti Hdi Hti)].
  revert last i j Hij Hdi Hdj Hti Htj.
  induction times as [|t0 rest IH]; intros last i j Hij Hdi Hdj Hti Htj;
    [discriminate|].
  destruct j as [|j]; [lia|]. destruct i as [|i]; simpl in Hdi, Hdj, Hti, Htj.
  - injection Hdi as Hdi. injection Hti as <-. rewrite Hdi in Hdj.
    exact (gate_first rest t0 j tj Hdj Htj).
  - apply (IH (if send_midi_now t0 last then t0 else last) i j);
      [lia|assumption..].
Qed.

Lemma gate_spacing_witness :
  0.1 - 0.05 > send_interval /\ 0.05 - 0 > send_interval.
Proof.
  apply (gate_spacing 0 [0.05; 0.06; 0.1] 0 2 0.05 0.1).
  - lia.
  - simpl. rewrite (gate_open 0.05 0) by lra. reflexivity.
  - simpl. rewrite (gate_open 0.05 0) by lra.
    rewrite (gate_closed 0.06 0.05) by lra.
    rewrite (gate_open 0.1 0.05) by lra. reflexivity.
  - reflexivity.
  - reflexivity.
Defined.

(** ** Frames without hands, and the end of the loop *)

(** X21.  A frame in which no hand is detected draws no overlay, sends
    nothing and raises nothing, whatever the range; it still takes the
    emit decision, and when the decision is true [last_send] becomes the
    time of this frame although no message was sent. *)
Theorem empty_frame_takes_the_gate (cfg : Range) (out : MidiOut) (last : R)
    (t : Tick) :
  ret t = true ->
  multi_hand_landmarks (results t) = None
  \/ multi_hand_landmarks (results t) = Some []
  \/ multi_handedness (results t) = None
  \/ multi_handedness (results t) = Some [] ->
  iteration cfg out last t
  = ([ImShow],
     inr (flow_of (key t), if send_midi_now (now t) last then now t else last)).
Proof.
  intros Hret Hnone. unfold iteration, flow_of. rewrite Hret. simpl negb. cbv iota.
  rewrite (extract_nothing _ _ _ Hnone), bind_value. cbv beta.
  unfold measure_and_send.
  destruct (getitem2_coords_of None None None None) as (-> & -> & -> & ->).
  unfold lift. rewrite !bind_value. cbv beta. cbn [fst snd].
  unfold draw_all.
  destruct (send_midi_now (now t) last);
    rewrite !draw_line_info_absent by (left; reflexivity);
    rewrite !bind_value; cbv beta; cbn [fst snd];
    destruct (Z.land (key t) 255 =? 113)%Z; reflexivity.
Qed.

Lemma empty_frame_takes_the_gate_witness :
  iteration degenerate_range sample_out 0
    {| ret := true; frame_h := 200; frame_w := 200;
       results := {| multi_hand_landmarks := None; multi_handedness := None |};
       now := 1; key := -1 |}
  = ([ImShow], inr (Continue, 1)).
Proof.
  rewrite (empty_frame_takes_the_gate degenerate_range sample_out 0
             {| ret := true; frame_h := 200; frame_w := 200;
                results := {| multi_hand_landmarks := None;
                              multi_handedness := None |};
                now := 1; key := -1 |} eq_refl (or_introl eq_refl)).
  cbn [now key]. rewrite (gate_open 1 0) by lra. reflexivity.
Defined.

Lemma quit_key (key : Z) : flow_of key = Break <-> (key mod 256 = 113)%Z.
Proof.
  unfold flow_of. change 255%Z with (Z.ones 8).
  rewrite Z.land_ones by lia. change (2 ^ 8)%Z with 256%Z.
  destruct (key mod 256 =? 113)%Z eqn:E.
  - apply Z.eqb_eq in E. tauto.
  - apply Z.eqb_neq in E. split; [discriminate|contradiction].
Qed.

Lemma iteration_flow (cfg : Range) (out : MidiOut) (last : R) (t : Tick)
    (f : Flow) (l : R) :
  outcome (iteration cfg out last t) = inr (f, l) ->
  f = if ret t then flow_of (key t) else Break.
Proof.
  unfold iteration, flow_of. destruct (ret t); simpl negb; cbv iota.
  - rewrite !outcome_bind.
    destruct (outcome (extract _ _ _)) as [e|coords]; [discriminate|].
    rewrite outcome_bind.
    destruct (outcome (measure_and_send _ _ _ _ _)) as [e|r]; [discriminate|].
    rewrite outcome_bind.
    change (outcome (emit ImShow)) with (@inr Py.Exn unit tt). cbv iota.
    destruct (Z.land (key t) 255 =? 113)%Z; unfold outcome, pure; simpl;
      intros [= <- _]; reflexivity.
  - unfold outcome, pure. simpl. intros [= <- _]. reflexivity.
Qed.

Lemma loop_app_cons (cfg : Range) (out : MidiOut) (t : Tick)
    (after after' : list Tick) (before : list Tick) :
  (forall last : R,
      loop cfg out last (t :: after) = loop cfg out last (t :: after')) ->
  forall last : R,
    loop cfg out last (before ++ t :: after)
    = loop cfg out last (before ++ t :: after').
Proof.
  intros Hhead. induction before as [|t0 before IH]; intros last.
  - apply Hhead.
  - simpl. destruct (iteration cfg out last t0) as [tr [e|[f l]]];
      [reflexivity|].
    rewrite !bind_value. cbn [fst snd]. destruct f; [|reflexivity].
    rewrite IH. reflexivity.
Qed.

(** X22.  The loop ends at the first frame the camera fails to deliver or
    at which the low byte of the key code is 113, the letter q: the frames
    after it are never read.  A failed read ends the loop at once, without
    any event of its own and with [last_send] as it was. *)
Theorem loop_stops (cfg : Range) (out : MidiOut) (last : R)
    (before after : list Tick) (t : Tick) :
  ret t = false \/ (key t mod 256 = 113)%Z ->
  loop cfg out last (before ++ t :: after)
  = loop cfg out last (before ++ [t])
  /\ (ret t = false ->
      forall last' : R, loop cfg out last' (t :: after) = ([], inr last')).
Proof.
  intros Hstop. split.
  - apply loop_app_cons. clear last. intros last. simpl.
    destruct (iteration cfg out last t) as [tr [e|[f l]]] eqn:Hit;
      [reflexivity|].
    pose proof (iteration_flow cfg out last t f l) as Hflow.
    rewrite Hit in Hflow. specialize (Hflow eq_refl).
    assert (f = Break) as ->.
    { destruct Hstop as [Hret | Hkey].
      - rewrite Hret in Hflow. exact Hflow.
      - destruct (ret t); [|exact Hflow]. rewrite Hflow. apply quit_key, Hkey. }
    rewrite !bind_value. reflexivity.
  - intros Hret last'. simpl. unfold iteration. rewrite Hret. reflexivity.
Qed.

Lemma loop_stops_witness :
  loop shipped sample_out 0
    ([sample_tick 1]
     ++ {| ret := true; frame_h := 200; frame_w := 200;
           results := sample_results []; now := 2; key := 113 + 256 |}
     :: [sample_tick 3; sample_tick 4])
  = loop shipped sample_out 0
      ([sample_tick 1]
       ++ [{| ret := true; frame_h := 200; frame_w := 200;
              results := sample_results []; now := 2; key := 113 + 256 |}]).
Proof.
  apply (loop_stops shipped sample_out 0 [sample_tick 1]
           [sample_tick 3; sample_tick 4]
           {| ret := true; frame_h := 200; frame_w := 200;
              results := sample_results []; now := 2; key := 113 + 256 |}).
  right. reflexivity.
Defined.

(** ** The MIDI output of a run *)

Lemma loop_midi_stream (cfg : Range) (out : MidiOut) (ticks : list Tick) :
  MIN_DIST_PX cfg <> MAX_DIST_PX cfg ->
  Forall passes ticks ->
  forall last : R,
    midi_messages (trace (loop cfg out last ticks))
    = concat (zip_with (fun t (gate : bool) =>
                          if gate then frame_messages cfg t else [])
                ticks (gate_decisions last (now <$> ticks))).
Proof.
  intros Hr Hticks. induction Hticks as [|t rest (Hret & Hkey & coords & Hex) _ IH];
    intros last; [reflexivity|].
  destruct (extract (frame_w t) (frame_h t) (results t)) as [trE rE] eqn:HexE.
  unfold outcome in Hex. simpl in Hex. subst rE.
  destruct (extract_shape _ _ _ _ _ HexE) as (lt & li & rt & ri & ->).
  pose proof (iteration_midi cfg out last t trE lt li rt ri Hr Hret HexE) as Hmidi.
  pose proof (iteration_events cfg out last t trE lt li rt ri Hr Hret HexE) as Hit.
  simpl loop. rewrite trace_bind, midi_messages_app, Hmidi.
  rewrite Hit. unfold outcome at 1. cbn [fst snd]. rewrite Hkey.
  simpl fmap. simpl gate_decisions. simpl zip_with. simpl concat.
  rewrite <- IH. f_equal.
  unfold frame_messages. rewrite HexE. unfold outcome. cbn [snd].
  unfold fingertip.
  destruct (getitem2_coords_of lt li rt ri) as (-> & -> & -> & ->).
  reflexivity.
Qed.

(** X23.  The MIDI output of a run, for a range with distinct ends and
    frames that pass: frame by frame, the messages of the pairs present in
    the frame when the emit decision of the frame is true, nothing
    otherwise, the decisions being those of the gate started at
    [last_send = 0] over the clock readings of the frames. *)
Theorem run_midi_stream (cfg : Range) (ports : list string)
    (ticks : list Tick) :
  MIN_DIST_PX cfg <> MAX_DIST_PX cfg ->
  Forall passes ticks ->
  midi_messages (trace (run cfg ports ticks))
  = concat (zip_with (fun t (gate : bool) =>
                        if gate then frame_messages cfg t else [])
              ticks (gate_decisions 0 (now <$> ticks))).
Proof.
  intros Hr Hticks.
  destruct (run_midi cfg ports ticks) as (out & _ & ->).
  apply loop_midi_stream; assumption.
Qed.

Lemma sample_tick_passes (now : R) : passes (sample_tick now).
Proof.
  split; [reflexivity|]. split; [reflexivity|].
  eexists. rewrite sample_tick_extract. reflexivity.
Qed.

Lemma run_midi_stream_witness :
  midi_messages (trace (run shipped [] [sample_tick 0.5; sample_tick 0.51]))
  = concat (zip_with (fun t (gate : bool) =>
                        if gate then frame_messages shipped t else [])
              [sample_tick 0.5; sample_tick 0.51]
              (gate_decisions 0 (now <$> [sample_tick 0.5; sample_tick 0.51]))).
Proof.
  apply (run_midi_stream shipped [] [sample_tick 0.5; sample_tick 0.51]).
  - simpl. lra.
  - repeat constructor; apply sample_tick_passes.
Defined.
